(** * The workflow front end of agent-for-code-agents, embedded in Rocq

    The development follows these source units of the repository:

    - [lib/utils.ts]: the text sanitizer [cleanUnicodeText] and
      [sanitizeErrorMessage];
    - [lib/store.ts]: the zustand store ([AppState]) and its actions;
    - [components/workflow/workflow-steps.tsx] and
      [app/project/[id]/workflow/page.tsx]: the run gate [canRunStep] and the
      step driver [handleStepAction] with its polling loop;
    - [lib/api.ts]: the retry loop of [ApiClient.request];
    - [app/dashboard/page.tsx]: [recentProjects] and [handleArchive].

    JavaScript strings are sequences of UTF-16 code units, dates are
    millisecond time stamps, the store is a record threaded through the
    actions, and the asynchronous step driver is written in a small monad with
    state and exceptions, so that [try]/[catch]/[finally] read as in the
    source. *)

From stdpp Require Import base numbers list option strings pretty sorting gmap.

Local Open Scope Z_scope.

(** ** JavaScript strings *)

(** A string is its list of UTF-16 code units. *)
Abbreviation jsstring := (list Z).

(** Reading a literal of the source: every character of the literals used
    below is ASCII, so a character is its own code unit. *)
Fixpoint str (s : string) : jsstring :=
  match s with
  | EmptyString => []
  | String a rest => Z.of_nat (Ascii.nat_of_ascii a) :: str rest
  end.

Arguments str : simpl never.

(** [!text]: the empty string is the only falsy string. *)
Definition falsy (s : jsstring) : bool :=
  match s with [] => true | _ => false end.

(** [a || b] on strings. *)
Definition or_else (a b : jsstring) : jsstring :=
  if falsy a then b else a.

(** [a || b] where [a] may be [undefined]. *)
Definition opt_or_else (a : option jsstring) (b : jsstring) : jsstring :=
  match a with
  | Some s => or_else s b
  | None => b
  end.

(** A character class [[lo-hi]] of a regular expression without the [u]
    flag: it tests one code unit. *)
Definition inRange (lo hi c : Z) : bool := (lo <=? c) && (c <=? hi).

(** [s.replace(/[lo-hi]/g, '')]. *)
Definition removeClass (lo hi : Z) (s : jsstring) : jsstring :=
  filter (λ c, inRange lo hi c = false) s.

Module Utils.

Definition isHighEmojiSurrogate (c : Z) : bool := inRange 0xD83C 0xDBFF c.
Definition isLowSurrogate (c : Z) : bool := inRange 0xDC00 0xDFFF c.

(** [text.replace(/[\uD83C-\uDBFF][\uDC00-\uDFFF]/g, '')]: the scan goes
    from left to right; a match consumes both code units and the scan
    resumes after them, otherwise it moves one code unit on. *)
Fixpoint removeEmojiSurrogatePairs (s : jsstring) : jsstring :=
  match s with
  | [] => []
  | h :: tl =>
      match tl with
      | [] => [h]
      | l :: rest =>
          if isHighEmojiSurrogate h && isLowSurrogate l
          then removeEmojiSurrogatePairs rest
          else h :: removeEmojiSurrogatePairs tl
      end
  end.

Definition removeMiscSymbols : jsstring → jsstring := removeClass 0x2600 0x26FF.
Definition removeDingbats : jsstring → jsstring := removeClass 0x2700 0x27BF.
Definition removeVariationSelectors : jsstring → jsstring :=
  removeClass 0xFE00 0xFE0F.
Definition removeZeroWidthJoiner : jsstring → jsstring :=
  removeClass 0x200D 0x200D.

Definition cleanUnicodeText (text : jsstring) : jsstring :=
  if falsy text then text
  else
    removeZeroWidthJoiner
      (removeVariationSelectors
         (removeDingbats
            (removeMiscSymbols
               (removeEmojiSurrogatePairs text)))).

(** A thrown value. Everything thrown on the paths modelled here is an
    [Error] (or the [ApiError] subclass), so [error instanceof Error]
    holds and the message is what is read. *)
Record JsError : Type := mkError { message : jsstring }.

Definition sanitizeErrorMessage (error : JsError) : jsstring :=
  cleanUnicodeText (message error).

(** The classes of code units the specification speaks about. *)
Definition isControl (c : Z) : bool :=
  inRange 0x0000 0x001F c || inRange 0x007F 0x009F c.
Definition isVariationSelector (c : Z) : bool := inRange 0xFE00 0xFE0F c.
Definition isAscii (c : Z) : bool := inRange 0x0000 0x007F c.

(** An emoji surrogate pair somewhere in the string: what the first
    regular expression of [cleanUnicodeText] matches. *)
Fixpoint hasEmojiSurrogatePair (s : jsstring) : bool :=
  match s with
  | [] => false
  | h :: tl =>
      match tl with
      | [] => false
      | l :: _ =>
          (isHighEmojiSurrogate h && isLowSurrogate l)
          || hasEmojiSurrogatePair tl
      end
  end.

(** Every code unit in U+D83C..U+DBFF is directly followed by a low
    surrogate. All well-formed UTF-16 text is like this: a high surrogate
    there is always the first half of a pair. *)
Fixpoint highSurrogatesPaired (s : jsstring) : bool :=
  match s with
  | [] => true
  | h :: tl =>
      (negb (isHighEmojiSurrogate h)
       || match tl with
          | l :: _ => isLowSurrogate l
          | [] => false
          end)
      && highSurrogatesPaired tl
  end.

(** *** The other text helpers of [lib/utils.ts] *)

(** [text.substring(0, n)] for an integer [n]: a negative [n] counts as 0, an
    [n] beyond the length as the length. *)
Definition substring0 (n : Z) (text : jsstring) : jsstring :=
  take (Z.to_nat n) text.

(** [truncateText]; [maxLength] is taken to be an integer. *)
Definition truncateText (text : jsstring) (maxLength : Z) : jsstring :=
  if Z.of_nat (length text) <=? maxLength then text
  else substring0 maxLength text ++ str "...".

(** [s.lastIndexOf(c)] for a one-character pattern, as the index of the last
    occurrence among the positions [i], [i+1], ... of [s], or [-1]. *)
Fixpoint lastIndexFrom (c : Z) (i : Z) (s : jsstring) : Z :=
  match s with
  | [] => -1
  | x :: tl =>
      let later := lastIndexFrom c (i + 1) tl in
      if 0 <=? later then later
      else if x =? c then i
      else -1
  end.

Definition lastIndexOf (c : Z) (s : jsstring) : Z := lastIndexFrom c 0 s.

(** [x >>> 0]: the integer modulo 2^32. *)
Definition toUint32 (x : Z) : Z := x mod 2 ^ 32.

(** [s.slice(start)] *)
Definition sliceFrom (start : Z) (s : jsstring) : jsstring :=
  if start <? 0
  then drop (Z.to_nat (Z.max (Z.of_nat (length s) + start) 0)) s
  else drop (Z.to_nat start) s.

(** [filename.slice((filename.lastIndexOf(".") - 1 >>> 0) + 2)] *)
Definition getFileExtension (filename : jsstring) : jsstring :=
  sliceFrom (toUint32 (lastIndexOf 0x2E filename - 1) + 2) filename.

(** Following the specification's words: the "safe character subset" has
    no control character, no emoji surrogate pair and no variation
    selector. *)
Definition spec_safeSubset (s : jsstring) : bool :=
  forallb (λ c, negb (isControl c) && negb (isVariationSelector c)) s
  && negb (hasEmojiSurrogatePair s).

End Utils.

(** ** The store ([lib/store.ts]) *)

Module Store.

(** [Date]: milliseconds since the epoch. [new Date()] reads the clock;
    the actions below take that reading as the argument [now], and the
    draw of [crypto.randomUUID()] as the argument [uuid]. *)
Definition Date : Type := Z.

Module StepStatus.
Inductive t : Type := pending | in_progress | completed | error.
#[global] Instance step_status_eq_dec : EqDecision t.
Proof. solve_decision. Defined.
End StepStatus.

Module ProjectStatus.
Inductive t : Type := draft | processing | completed | error | archived.
#[global] Instance project_status_eq_dec : EqDecision t.
Proof. solve_decision. Defined.
End ProjectStatus.

Module ProjectStep.
Record t : Type := mk {
  id : jsstring;
  name : jsstring;
  description : jsstring;
  status : StepStatus.t;
  output : option jsstring;
  filePath : option jsstring;
  createdAt : Date;
  updatedAt : Date;
}.
End ProjectStep.

(** [Partial<ProjectStep>]: [None] is an absent key. For the two optional
    fields a present key may still carry [undefined]. *)
Module StepUpdates.
Record t : Type := mk {
  id : option jsstring;
  name : option jsstring;
  description : option jsstring;
  status : option StepStatus.t;
  output : option (option jsstring);
  filePath : option (option jsstring);
  createdAt : option Date;
  updatedAt : option Date;
}.
Definition none : t := mk None None None None None None None None.
End StepUpdates.

Module Project.
Record t : Type := mk {
  id : jsstring;
  name : jsstring;
  description : jsstring;
  status : ProjectStatus.t;
  steps : list ProjectStep.t;
  workspace : jsstring;
  createdAt : Date;
  updatedAt : Date;
  archivedAt : option Date;
}.
End Project.

(** [Partial<Project>]. *)
Module ProjectUpdates.
Record t : Type := mk {
  id : option jsstring;
  name : option jsstring;
  description : option jsstring;
  status : option ProjectStatus.t;
  steps : option (list ProjectStep.t);
  workspace : option jsstring;
  createdAt : option Date;
  updatedAt : option Date;
  archivedAt : option (option Date);
}.
Definition none : t := mk None None None None None None None None None.
End ProjectUpdates.

Module MessageType.
Inductive t : Type := user | assistant | system.
End MessageType.

Module ChatMessage.
Record t : Type := mk {
  id : jsstring;
  type : MessageType.t;
  content : jsstring;
  timestamp : Date;
  metadata : option (list (jsstring * jsstring));
}.
End ChatMessage.

Record AppState : Type := mkState {
  sidebarOpen : bool;
  darkMode : bool;
  currentProject : option Project.t;
  projects : list Project.t;
  messages : list ChatMessage.t;
  isProcessing : bool;
  activeFile : option jsstring;
  openFiles : list jsstring;
  fileContents : gmap jsstring jsstring;
}.

Definition initialState : AppState :=
  mkState true false None [] [] false None [] ∅.

(** [set(partial)] of zustand merges the given keys into the state; one
    setter per key that the actions write. *)
Definition set_sidebarOpen (v : bool) (st : AppState) : AppState :=
  mkState v (darkMode st) (currentProject st) (projects st) (messages st)
          (isProcessing st) (activeFile st) (openFiles st) (fileContents st).
Definition set_darkMode (v : bool) (st : AppState) : AppState :=
  mkState (sidebarOpen st) v (currentProject st) (projects st) (messages st)
          (isProcessing st) (activeFile st) (openFiles st) (fileContents st).
Definition set_currentProject (v : option Project.t) (st : AppState) : AppState :=
  mkState (sidebarOpen st) (darkMode st) v (projects st) (messages st)
          (isProcessing st) (activeFile st) (openFiles st) (fileContents st).
Definition set_projects (v : list Project.t) (st : AppState) : AppState :=
  mkState (sidebarOpen st) (darkMode st) (currentProject st) v (messages st)
          (isProcessing st) (activeFile st) (openFiles st) (fileContents st).
Definition set_messages (v : list ChatMessage.t) (st : AppState) : AppState :=
  mkState (sidebarOpen st) (darkMode st) (currentProject st) (projects st) v
          (isProcessing st) (activeFile st) (openFiles st) (fileContents st).
Definition set_isProcessing (v : bool) (st : AppState) : AppState :=
  mkState (sidebarOpen st) (darkMode st) (currentProject st) (projects st)
          (messages st) v (activeFile st) (openFiles st) (fileContents st).
Definition set_activeFile (v : option jsstring) (st : AppState) : AppState :=
  mkState (sidebarOpen st) (darkMode st) (currentProject st) (projects st)
          (messages st) (isProcessing st) v (openFiles st) (fileContents st).
Definition set_openFiles (v : list jsstring) (st : AppState) : AppState :=
  mkState (sidebarOpen st) (darkMode st) (currentProject st) (projects st)
          (messages st) (isProcessing st) (activeFile st) v (fileContents st).
Definition set_fileContents (v : gmap jsstring jsstring) (st : AppState) : AppState :=
  mkState (sidebarOpen st) (darkMode st) (currentProject st) (projects st)
          (messages st) (isProcessing st) (activeFile st) (openFiles st) v.

(** *** Workspace names *)

(** [String.prototype.toLowerCase] is a function of the JavaScript engine:
    it maps the string through the case tables of the Unicode version the
    engine carries (Greek and Cyrillic capitals are lowered like the Latin
    ones, and the length can change: U+0130 becomes the two code units
    U+0069 U+0307). The tables are no part of the source, so the function is
    taken as given, and what is proved below holds for every engine. *)
Class Engine : Type := { toLowerCase : jsstring → jsstring }.

Section WithEngine.
Context `{Engine}.

(** The class [\s] of ECMAScript: white space and line terminators. *)
Definition isWhiteSpace (c : Z) : bool :=
  inRange 0x09 0x0D c || (c =? 0x20) || (c =? 0xA0) || (c =? 0x1680)
  || inRange 0x2000 0x200A c || (c =? 0x2028) || (c =? 0x2029)
  || (c =? 0x202F) || (c =? 0x205F) || (c =? 0x3000) || (c =? 0xFEFF).

(** [s.replace(/\s+/g, '-')]: every maximal run of white space becomes one
    hyphen. [inRun] tells that the previous code unit was white space. *)
Fixpoint replaceWhiteSpaceRuns (inRun : bool) (s : jsstring) : jsstring :=
  match s with
  | [] => []
  | c :: tl =>
      if isWhiteSpace c
      then (if inRun then replaceWhiteSpaceRuns true tl
            else 0x2D :: replaceWhiteSpaceRuns true tl)
      else c :: replaceWhiteSpaceRuns false tl
  end.

(** [`workspace/${name.toLowerCase().replace(/\s+/g, '-')}`] *)
Definition workspaceOf (name : jsstring) : jsstring :=
  str "workspace/" ++ replaceWhiteSpaceRuns false (toLowerCase name).

(** *** Project actions *)

Definition freshStep (id name description : jsstring) (now : Date) : ProjectStep.t :=
  ProjectStep.mk id name description StepStatus.pending None None now now.

(** The four steps every project is created with. *)
Definition initialSteps (now : Date) : list ProjectStep.t :=
  [ freshStep (str "analysis") (str "Requirements Analysis")
      (str "Analyzing project requirements and creating structured analysis") now;
    freshStep (str "architecture") (str "Technical Architecture")
      (str "Designing technical architecture and system components") now;
    freshStep (str "planning") (str "Implementation Planning")
      (str "Creating detailed task breakdown and implementation plan") now;
    freshStep (str "optimization") (str "Prompt Optimization")
      (str "Generating optimized final prompt for code generation") now ].

Definition newProject (name description uuid : jsstring) (now : Date) : Project.t :=
  Project.mk uuid name description ProjectStatus.draft (initialSteps now)
             (workspaceOf name) now now None.

Definition createProject (name description uuid : jsstring) (now : Date)
    (st : AppState) : AppState :=
  let p := newProject name description uuid now in
  set_currentProject (Some p) (set_projects (projects st ++ [p]) st).

(** [p.id === id] *)
Definition hasId (id : jsstring) (p : Project.t) : bool :=
  bool_decide (Project.id p = id).

(** The debugging output of [console.log] and [console.warn] is not part of
    the state. *)
Definition addProject (project : Project.t) (st : AppState) : AppState :=
  match find (hasId (Project.id project)) (projects st) with
  | Some existingProject => st
  | None => set_projects (projects st ++ [project]) st
  end.

(** [{ ...p, ...updates, updatedAt: new Date() }] *)
Definition mergeProject (p : Project.t) (updates : ProjectUpdates.t) (now : Date)
    : Project.t :=
  Project.mk
    (default (Project.id p) (ProjectUpdates.id updates))
    (default (Project.name p) (ProjectUpdates.name updates))
    (default (Project.description p) (ProjectUpdates.description updates))
    (default (Project.status p) (ProjectUpdates.status updates))
    (default (Project.steps p) (ProjectUpdates.steps updates))
    (default (Project.workspace p) (ProjectUpdates.workspace updates))
    (default (Project.createdAt p) (ProjectUpdates.createdAt updates))
    now
    (default (Project.archivedAt p) (ProjectUpdates.archivedAt updates)).

(** [state.currentProject?.id === id ? f(state.currentProject) : state.currentProject] *)
Definition onCurrent (id : jsstring) (f : Project.t → option Project.t)
    (cur : option Project.t) : option Project.t :=
  match cur with
  | Some p => if hasId id p then f p else Some p
  | None => None
  end.

Definition updateProject (id : jsstring) (updates : ProjectUpdates.t) (now : Date)
    (st : AppState) : AppState :=
  set_currentProject
    (onCurrent id (λ p, Some (mergeProject p updates now)) (currentProject st))
    (set_projects
       (map (λ p, if hasId id p then mergeProject p updates now else p)
            (projects st))
       st).

Definition deleteProject (id : jsstring) (st : AppState) : AppState :=
  set_currentProject
    (onCurrent id (λ _, None) (currentProject st))
    (set_projects (List.filter (λ p, negb (hasId id p)) (projects st)) st).

Definition resetStep (now : Date) (step : ProjectStep.t) : ProjectStep.t :=
  ProjectStep.mk (ProjectStep.id step) (ProjectStep.name step)
                 (ProjectStep.description step) StepStatus.pending
                 None None now now.

Definition duplicateProject (id newName uuid : jsstring) (now : Date)
    (st : AppState) : AppState :=
  match find (hasId id) (projects st) with
  | None => st
  | Some originalProject =>
      let duplicatedProject :=
        Project.mk uuid newName (Project.description originalProject)
                   ProjectStatus.draft
                   (map (resetStep now) (Project.steps originalProject))
                   (workspaceOf newName) now now
                   (Project.archivedAt originalProject) in
      set_projects (projects st ++ [duplicatedProject]) st
  end.

Definition setCurrentProject (project : option Project.t) (st : AppState) : AppState :=
  set_currentProject project st.

(** [p.workspace && p.workspace.startsWith('workspace/')] *)
Definition isWorkspaceProject (p : Project.t) : bool :=
  negb (falsy (Project.workspace p))
  && bool_decide (str "workspace/" `prefix_of` Project.workspace p).

(** The [set] of [loadWorkspaceProjects]; [convertedProjects] is the answer
    of the workspace scan after its conversion to [Project] records. *)
Definition loadWorkspaceProjects (convertedProjects : list Project.t)
    (st : AppState) : AppState :=
  let existingWorkspacePaths : gset jsstring :=
    list_to_set (map Project.workspace
                     (List.filter isWorkspaceProject (projects st))) in
  let existingProjectIds : gset jsstring :=
    list_to_set (map Project.id (projects st)) in
  let newProjects :=
    List.filter
      (λ project,
         negb (bool_decide (Project.workspace project ∈ existingWorkspacePaths))
         && negb (bool_decide (Project.id project ∈ existingProjectIds)))
      convertedProjects in
  set_projects (projects st ++ newProjects) st.

Definition addProjectStep (projectId : jsstring)
    (name description : jsstring) (status : StepStatus.t)
    (output filePath : option jsstring) (uuid : jsstring) (now : Date)
    (st : AppState) : AppState :=
  let newStep :=
    ProjectStep.mk uuid name description status output filePath now now in
  let extend (p : Project.t) : Project.t :=
    Project.mk (Project.id p) (Project.name p) (Project.description p)
               (Project.status p) (Project.steps p ++ [newStep])
               (Project.workspace p) (Project.createdAt p) now
               (Project.archivedAt p) in
  set_currentProject
    (onCurrent projectId (λ p, Some (extend p)) (currentProject st))
    (set_projects
       (map (λ p, if hasId projectId p then extend p else p) (projects st))
       st).

(** [{ ...s, ...updates, updatedAt: new Date() }] *)
Definition mergeStep (s : ProjectStep.t) (updates : StepUpdates.t) (now : Date)
    : ProjectStep.t :=
  ProjectStep.mk
    (default (ProjectStep.id s) (StepUpdates.id updates))
    (default (ProjectStep.name s) (StepUpdates.name updates))
    (default (ProjectStep.description s) (StepUpdates.description updates))
    (default (ProjectStep.status s) (StepUpdates.status updates))
    (default (ProjectStep.output s) (StepUpdates.output updates))
    (default (ProjectStep.filePath s) (StepUpdates.filePath updates))
    (default (ProjectStep.createdAt s) (StepUpdates.createdAt updates))
    now.

(** [s.id === stepId] *)
Definition stepHasId (stepId : jsstring) (s : ProjectStep.t) : bool :=
  bool_decide (ProjectStep.id s = stepId).

Definition updateSteps (stepId : jsstring) (updates : StepUpdates.t) (now : Date)
    (steps : list ProjectStep.t) : list ProjectStep.t :=
  map (λ s, if stepHasId stepId s then mergeStep s updates now else s) steps.

(** The project with the step updated; every other field but [updatedAt]
    is copied by the spread. *)
Definition withUpdatedStep (stepId : jsstring) (updates : StepUpdates.t)
    (now : Date) (p : Project.t) : Project.t :=
  Project.mk (Project.id p) (Project.name p) (Project.description p)
             (Project.status p)
             (updateSteps stepId updates now (Project.steps p))
             (Project.workspace p) (Project.createdAt p) now
             (Project.archivedAt p).

Definition updateProjectStep (projectId stepId : jsstring)
    (updates : StepUpdates.t) (now : Date) (st : AppState) : AppState :=
  set_currentProject
    (onCurrent projectId (λ p, Some (withUpdatedStep stepId updates now p))
               (currentProject st))
    (set_projects
       (map (λ p, if hasId projectId p
                  then withUpdatedStep stepId updates now p else p)
            (projects st))
       st).

(** *** Chat and editor actions *)

Definition addMessage (type : MessageType.t) (content : jsstring)
    (metadata : option (list (jsstring * jsstring)))
    (uuid : jsstring) (now : Date) (st : AppState) : AppState :=
  set_messages
    (messages st ++ [ChatMessage.mk uuid type content now metadata]) st.

Definition clearMessages (st : AppState) : AppState := set_messages [] st.

Definition setProcessing (processing : bool) (st : AppState) : AppState :=
  set_isProcessing processing st.

Definition setSidebarOpen (open : bool) (st : AppState) : AppState :=
  set_sidebarOpen open st.

Definition toggleDarkMode (st : AppState) : AppState :=
  set_darkMode (negb (darkMode st)) st.

Definition openFile (filePath : jsstring) (st : AppState) : AppState :=
  set_activeFile (Some filePath)
    (set_openFiles
       (if bool_decide (filePath ∈ openFiles st) then openFiles st
        else openFiles st ++ [filePath])
       st).

Definition closeFile (filePath : jsstring) (st : AppState) : AppState :=
  let newOpenFiles :=
    List.filter (λ f, negb (bool_decide (f = filePath))) (openFiles st) in
  let newActiveFile :=
    if bool_decide (activeFile st = Some filePath)
    then match last newOpenFiles with
         | Some f => if falsy f then None else Some f
         | None => None
         end
    else activeFile st in
  set_fileContents (delete filePath (fileContents st))
    (set_activeFile newActiveFile (set_openFiles newOpenFiles st)).

Definition setActiveFile (filePath : option jsstring) (st : AppState) : AppState :=
  set_activeFile filePath st.

Definition updateFileContent (filePath content : jsstring) (st : AppState)
    : AppState :=
  set_fileContents (<[filePath := content]> (fileContents st)) st.

(** *** The actions as data *)

(** One constructor per action of the store, with the clock reading and the
    identifier drawn where the action takes them. *)
Inductive StoreAction : Type :=
| SetSidebarOpen (open : bool)
| ToggleDarkMode
| CreateProject (name description uuid : jsstring) (now : Date)
| AddProject (project : Project.t)
| UpdateProject (id : jsstring) (updates : ProjectUpdates.t) (now : Date)
| DeleteProject (id : jsstring)
| DuplicateProject (id newName uuid : jsstring) (now : Date)
| SetCurrentProject (project : option Project.t)
| LoadWorkspaceProjects (convertedProjects : list Project.t)
| AddProjectStep (projectId name description : jsstring) (status : StepStatus.t)
    (output filePath : option jsstring) (uuid : jsstring) (now : Date)
| UpdateProjectStep (projectId stepId : jsstring) (updates : StepUpdates.t)
    (now : Date)
| AddMessage (type : MessageType.t) (content : jsstring)
    (metadata : option (list (jsstring * jsstring))) (uuid : jsstring) (now : Date)
| ClearMessages
| SetProcessing (processing : bool)
| OpenFile (filePath : jsstring)
| CloseFile (filePath : jsstring)
| SetActiveFile (filePath : option jsstring)
| UpdateFileContent (filePath content : jsstring).

Definition perform (a : StoreAction) (st : AppState) : AppState :=
  match a with
  | SetSidebarOpen open => setSidebarOpen open st
  | ToggleDarkMode => toggleDarkMode st
  | CreateProject name description uuid now =>
      createProject name description uuid now st
  | AddProject project => addProject project st
  | UpdateProject id updates now => updateProject id updates now st
  | DeleteProject id => deleteProject id st
  | DuplicateProject id newName uuid now => duplicateProject id newName uuid now st
  | SetCurrentProject project => setCurrentProject project st
  | LoadWorkspaceProjects convertedProjects =>
      loadWorkspaceProjects convertedProjects st
  | AddProjectStep projectId name description status output filePath uuid now =>
      addProjectStep projectId name description status output filePath uuid now st
  | UpdateProjectStep projectId stepId updates now =>
      updateProjectStep projectId stepId updates now st
  | AddMessage type content metadata uuid now =>
      addMessage type content metadata uuid now st
  | ClearMessages => clearMessages st
  | SetProcessing processing => setProcessing processing st
  | OpenFile filePath => openFile filePath st
  | CloseFile filePath => closeFile filePath st
  | SetActiveFile filePath => setActiveFile filePath st
  | UpdateFileContent filePath content => updateFileContent filePath content st
  end.

(** The state after a sequence of actions on the initial store. *)
Definition stateAfter (actions : list StoreAction) : AppState :=
  foldl (λ st a, perform a st) initialState actions.



(** Four steps with the given statuses, as [createProject] names them. *)
Definition stepsWith (s0 s1 s2 s3 : StepStatus.t) : list ProjectStep.t :=
  zip_with
    (λ step status,
       ProjectStep.mk (ProjectStep.id step) (ProjectStep.name step)
                      (ProjectStep.description step) status
                      (ProjectStep.output step) (ProjectStep.filePath step)
                      (ProjectStep.createdAt step) (ProjectStep.updatedAt step))
    (initialSteps 0) [s0; s1; s2; s3].

(** The statuses of the steps of the only project of a state. *)
Definition onlyStatuses (st : AppState) : list StepStatus.t :=
  match projects st with
  | [p] => map ProjectStep.status (Project.steps p)
  | _ => []
  end.

Definition onlySteps (st : AppState) : list ProjectStep.t :=
  match projects st with
  | [p] => Project.steps p
  | _ => []
  end.

(** The step at [index], for stating examples on concrete lists. *)
Definition stepAt (index : nat) (steps : list ProjectStep.t) : ProjectStep.t :=
  nth index steps (freshStep [] [] [] 0).

(** *** Consistency of the state *)

(** [currentProject] is the project the list holds under its identifier:
    looking the identifier up in the list gives [currentProject] itself. *)
Definition currentMirrorsList (st : AppState) : Prop :=
  ∀ p, currentProject st = Some p →
       find (hasId (Project.id p)) (projects st) = Some p.

(** What an action needs for [currentMirrorsList] to be kept: a fresh
    identifier for [createProject], no [id] key for [updateProject], and for
    [setCurrentProject] a project that is the list's entry. *)
Definition mirrorSafe (a : StoreAction) (st : AppState) : Prop :=
  match a with
  | CreateProject _ _ uuid _ => uuid ∉ map Project.id (projects st)
  | UpdateProject _ updates _ => ProjectUpdates.id updates = None
  | SetCurrentProject (Some p) =>
      find (hasId (Project.id p)) (projects st) = Some p
  | _ => True
  end.

(** The open files are listed once each and the active file is one of
    them. *)
Definition editorConsistent (st : AppState) : Prop :=
  NoDup (openFiles st)
  ∧ ∀ f, activeFile st = Some f → f ∈ openFiles st.

(** *** The status the specification derives *)

Definition anyStep (status : StepStatus.t) (steps : list ProjectStep.t) : bool :=
  existsb (λ s, bool_decide (ProjectStep.status s = status)) steps.

Definition allSteps (status : StepStatus.t) (steps : list ProjectStep.t) : bool :=
  forallb (λ s, bool_decide (ProjectStep.status s = status)) steps.

Definition isArchived (p : Project.t) : bool :=
  match Project.archivedAt p with Some _ => true | None => false end.

(** Following the specification's words: [error] if any step is [error];
    [completed] if all steps are [completed] and the project is not
    archived; [processing] if any step is [in_progress]; otherwise
    [draft]. *)
Definition spec_derivedStatus (p : Project.t) : ProjectStatus.t :=
  if anyStep StepStatus.error (Project.steps p) then ProjectStatus.error
  else if allSteps StepStatus.completed (Project.steps p) && negb (isArchived p)
       then ProjectStatus.completed
  else if anyStep StepStatus.in_progress (Project.steps p)
       then ProjectStatus.processing
  else ProjectStatus.draft.

Definition spec_statusIsDerived (p : Project.t) : bool :=
  bool_decide (Project.status p = spec_derivedStatus p).

End WithEngine.


(** The examples of this development use names of ASCII characters only. On
    those every engine agrees: [A]-[Z] become [a]-[z] and no other character
    changes. [asciiEngine] is an engine for the examples; it says nothing
    about names with other characters. *)
Definition asciiLowerCase (s : jsstring) : jsstring :=
  map (λ c, if inRange 0x41 0x5A c then c + 0x20 else c) s.

#[global] Instance asciiEngine : Engine := {| toLowerCase := asciiLowerCase |}.

End Store.

(** ** The run gate ([components/workflow/workflow-steps.tsx]) *)

Module WorkflowSteps.
Import Store.

Inductive StepAction : Type := run | edit | regenerate | load.

(** [steps] is [currentProject.steps], captured by the closure. The result
    is [None] where the source raises a [TypeError]: reading [.status] of
    [steps[index - 1]] when that element is [undefined]. *)
Definition canRunStep (steps : list ProjectStep.t) (step : ProjectStep.t)
    (index : nat) : option bool :=
  if bool_decide (ProjectStep.status step = StepStatus.in_progress) then Some false
  else if bool_decide (index = 0%nat) then Some true
  else match steps !! (index - 1)%nat with
       | Some previous =>
           Some (bool_decide (ProjectStep.status previous = StepStatus.completed))
       | None => None
       end.

(** The step actions a card offers through [onStepAction]: [load] and [run]
    on a pending step that can run, [regenerate] on a completed step. *)
Definition offeredActions (hasExistingWorkflow : bool)
    (steps : list ProjectStep.t) (step : ProjectStep.t) (index : nat)
    : option (list StepAction) :=
  match canRunStep steps step index with
  | None => None
  | Some canRun =>
      Some
        ((if bool_decide (ProjectStep.status step = StepStatus.pending) && canRun
          then (if hasExistingWorkflow then [load] else []) ++ [run]
          else [])
         ++ (if bool_decide (ProjectStep.status step = StepStatus.completed)
             then [regenerate] else []))
  end.

(** [toggleStepExpansion], as a function of the previous list of expanded
    steps. *)
Definition toggleStepExpansion (stepId : jsstring) (prev : list jsstring)
    : list jsstring :=
  if bool_decide (stepId ∈ prev)
  then List.filter (λ id, negb (bool_decide (id = stepId))) prev
  else prev ++ [stepId].

End WorkflowSteps.

(** ** The step driver ([app/project/[id]/workflow/page.tsx]) *)

Module Page.
Import Utils Store.

(** What the back end answers for one step of a project. The fields are
    untyped in the source ([as any]); a missing field is [None]. *)
Module ApiStep.
Record t : Type := mk {
  id : jsstring;
  status : jsstring;
  output : option jsstring;
  file_path : option jsstring;
  error : option jsstring;
}.
End ApiStep.

Inductive ApiCall : Type :=
| runAnalysisAgent (projectId userPrompt : jsstring)
| runArchitectAgent (projectId analysisPath : jsstring)
| runPlanningAgent (projectId architecturePath analysisPath : jsstring)
| runOptimizationAgent (projectId architecturePath planningPath analysisPath : jsstring).

(** A settled promise. *)
Inductive Response (A : Type) : Type :=
| Resolved (a : A)
| Rejected (e : JsError).
Arguments Resolved {A} a.
Arguments Rejected {A} e.

(** Everything outside the page: the answers of the back end, the [n]-th
    call of [getProject] answering [getProject n projectId] with the steps of
    the project (a rejection also stands for an answer without a [steps]
    array, on which [project.steps.find] raises), and the draws of
    [crypto.randomUUID()]. *)
Record Backend : Type := mkBackend {
  runAgent : ApiCall → Response unit;
  getProject : nat → jsstring → Response (list ApiStep.t);
  randomUUID : nat → jsstring;
}.

(** The state the driver works on: the store, the [isRunning] state of the
    component, the console, the clock (it moves with the timers only), and
    the counts of polls and of identifiers drawn. *)
Record World : Type := mkWorld {
  store : AppState;
  isRunning : bool;
  console : list jsstring;
  clock : Date;
  polls : nat;
  uuidsDrawn : nat;
  requests : list ApiCall;
}.

(** How a piece of code completes. [OutOfFuel] is not a JavaScript
    completion: it marks a loop of the model that was given too few
    iterations. *)
Inductive Completion (A : Type) : Type :=
| Normal (a : A)
| Throw (e : JsError)
| OutOfFuel.
Arguments Normal {A} a.
Arguments Throw {A} e.
Arguments OutOfFuel {A}.

Definition Eff (A : Type) : Type := World → Completion A * World.

#[global] Instance eff_ret : MRet Eff := λ A a w, (Normal a, w).

#[global] Instance eff_bind : MBind Eff := λ A B f m w,
  match m w with
  | (Normal a, w') => f a w'
  | (Throw e, w') => (Throw e, w')
  | (OutOfFuel, w') => (OutOfFuel, w')
  end.

Definition throw {A : Type} (e : JsError) : Eff A := λ w, (Throw e, w).

Definition outOfFuel {A : Type} : Eff A := λ w, (OutOfFuel, w).

(** [try { body } catch (e) { handler }] *)
Definition try_catch {A : Type} (body : Eff A) (handler : JsError → Eff A) : Eff A :=
  λ w,
    match body w with
    | (Throw e, w') => handler e w'
    | r => r
    end.

(** [try { body } finally { final }]: [final] runs however [body]
    completes; its own abrupt completion wins. *)
Definition try_finally {A : Type} (body : Eff A) (final : Eff unit) : Eff A :=
  λ w,
    match body w with
    | (OutOfFuel, w') => (OutOfFuel, w')
    | (r, w') =>
        match final w' with
        | (Normal _, w'') => (r, w'')
        | (Throw e, w'') => (Throw e, w'')
        | (OutOfFuel, w'') => (OutOfFuel, w'')
        end
    end.

Definition modify (f : World → World) : Eff unit := λ w, (Normal tt, f w).

Definition dispatch (action : AppState → AppState) : Eff unit :=
  modify (λ w, mkWorld (action (store w)) (isRunning w) (console w) (clock w)
                       (polls w) (uuidsDrawn w) (requests w)).

(** [new Date()] *)
Definition now : Eff Date := λ w, (Normal (clock w), w).

Section WithBackend.
Variable backend : Backend.

(** [crypto.randomUUID()] *)
Definition freshUUID : Eff jsstring :=
  λ w, (Normal (randomUUID backend (uuidsDrawn w)),
        mkWorld (store w) (isRunning w) (console w) (clock w) (polls w)
                (S (uuidsDrawn w)) (requests w)).

(** [await new Promise(resolve => setTimeout(resolve, ms))] *)
Definition sleep (ms : Z) : Eff unit :=
  modify (λ w, mkWorld (store w) (isRunning w) (console w) (clock w + ms)
                       (polls w) (uuidsDrawn w) (requests w)).

Definition consoleError (line : jsstring) : Eff unit :=
  modify (λ w, mkWorld (store w) (isRunning w) (console w ++ [line]) (clock w)
                       (polls w) (uuidsDrawn w) (requests w)).

Definition setIsRunning (v : bool) : Eff unit :=
  modify (λ w, mkWorld (store w) v (console w) (clock w) (polls w)
                       (uuidsDrawn w) (requests w)).

Definition settle {A : Type} (r : Response A) : Eff A :=
  match r with
  | Resolved a => mret a
  | Rejected e => throw e
  end.

(** [await apiClient.run...Agent(...)] *)
Definition awaitRunAgent (call : ApiCall) : Eff unit :=
  modify (λ w, mkWorld (store w) (isRunning w) (console w) (clock w) (polls w)
                       (uuidsDrawn w) (requests w ++ [call])) ;;
  settle (runAgent backend call).

(** [await apiClient.getProject(projectId)] *)
Definition awaitGetProject (projectId : jsstring) : Eff (list ApiStep.t) :=
  λ w,
    settle (getProject backend (polls w) projectId)
           (mkWorld (store w) (isRunning w) (console w) (clock w) (S (polls w))
                    (uuidsDrawn w) (requests w)).

(** The store actions as the page calls them. *)
Definition updateProjectStep (projectId stepId : jsstring)
    (updates : StepUpdates.t) : Eff unit :=
  t ← now; dispatch (Store.updateProjectStep projectId stepId updates t).

Definition addMessage (type : MessageType.t) (content : jsstring)
    (metadata : option (list (jsstring * jsstring))) : Eff unit :=
  u ← freshUUID; t ← now; dispatch (Store.addMessage type content metadata u t).

Definition setProcessing (processing : bool) : Eff unit :=
  dispatch (Store.setProcessing processing).

(** [metadata: { step: stepId }] *)
Definition stepMetadata (stepId : jsstring) : option (list (jsstring * jsstring)) :=
  Some [(str "step", stepId)].

Definition markInProgress : StepUpdates.t :=
  StepUpdates.mk None None None (Some StepStatus.in_progress) None None None None.

Definition markError : StepUpdates.t :=
  StepUpdates.mk None None None (Some StepStatus.error) None None None None.

Definition markCompleted (output filePath : jsstring) : StepUpdates.t :=
  StepUpdates.mk None None None (Some StepStatus.completed)
                 (Some (Some output)) (Some (Some filePath)) None None.

(** The [switch (stepId)] that picks the request; [None] is the [default]
    case. *)
Definition agentCall (projectId stepId workspaceBase description : jsstring)
    : option ApiCall :=
  if bool_decide (stepId = str "analysis") then
    Some (runAnalysisAgent projectId (or_else description []))
  else if bool_decide (stepId = str "architecture") then
    Some (runArchitectAgent projectId (workspaceBase ++ str "/analysis.md"))
  else if bool_decide (stepId = str "planning") then
    Some (runPlanningAgent projectId (workspaceBase ++ str "/architecture.md")
                           (workspaceBase ++ str "/analysis.md"))
  else if bool_decide (stepId = str "optimization") then
    Some (runOptimizationAgent projectId
            (workspaceBase ++ str "/architecture.md")
            (workspaceBase ++ str "/planning.md")
            (workspaceBase ++ str "/analysis.md"))
  else None.

(** The body of the [try] of one iteration. It yields the value of
    [completed] after the iteration. *)
Definition pollBody (currentProject : Project.t)
    (projectId stepId workspaceBase : jsstring) (completed : bool) : Eff bool :=
  steps ← awaitGetProject projectId;
  match find (λ s, bool_decide (ApiStep.id s = stepId)) steps with
  | Some step =>
      if bool_decide (ApiStep.status step = str "completed") then
        let cleanOutput :=
          match ApiStep.output step with
          | Some o => if falsy o then stepId ++ str " completed"
                      else cleanUnicodeText o
          | None => stepId ++ str " completed"
          end in
        updateProjectStep (Project.id currentProject) stepId
          (markCompleted cleanOutput
             (opt_or_else (ApiStep.file_path step)
                          (workspaceBase ++ str "/" ++ stepId ++ str ".md"))) ;;
        addMessage MessageType.assistant
          (stepId ++ str " phase completed successfully!") (stepMetadata stepId) ;;
        mret true
      else if bool_decide (ApiStep.status step = str "error") then
        let rawErrorMsg := opt_or_else (ApiStep.error step) (stepId ++ str " failed") in
        let cleanErrorMsg := cleanUnicodeText rawErrorMsg in
        let safeErrorMsg :=
          or_else cleanErrorMsg (stepId ++ str " encountered an error") in
        throw (mkError safeErrorMsg)
      else mret completed
  | None => mret completed
  end.

(** One iteration of the waiting loop: the timer, then the [try] with its
    [catch (pollError)]. Both places that raise inside the [try] come before
    any assignment to [completed], so the handler leaves it as it was. *)
Definition pollOnce (currentProject : Project.t)
    (projectId stepId workspaceBase : jsstring) (completed : bool) : Eff bool :=
  sleep 10000 ;;
  try_catch
    (pollBody currentProject projectId stepId workspaceBase completed)
    (λ pollError,
       consoleError (str "Error polling project status: "
                     ++ sanitizeErrorMessage pollError) ;;
       mret completed).

(** [while (!completed && attempts < 30) { ...; attempts++ }]; the result
    is the final value of [completed]. [fuel] bounds the iterations of the
    model. *)
Fixpoint waitLoop (fuel : nat) (currentProject : Project.t)
    (projectId stepId workspaceBase : jsstring)
    (completed : bool) (attempts : Z) : Eff bool :=
  if negb completed && (attempts <? 30) then
    match fuel with
    | O => outOfFuel
    | S fuel' =>
        completed' ← pollOnce currentProject projectId stepId workspaceBase completed;
        waitLoop fuel' currentProject projectId stepId workspaceBase
                 completed' (attempts + 1)
    end
  else mret completed.

(** The iterations [handleStepAction] gives to its loop. *)
Definition loopFuel : nat := 30.

Inductive Action : Type := run | edit | regenerate.

(** The body of the outer [try]. *)
Definition runStep (currentProject : Project.t) (projectId stepId : jsstring)
    : Eff unit :=
  updateProjectStep (Project.id currentProject) stepId markInProgress ;;
  addMessage MessageType.system
    (str "Starting " ++ stepId ++ str " phase...") (stepMetadata stepId) ;;
  let workspaceBase :=
    or_else (Project.workspace currentProject) (str "workspace/" ++ projectId) in
  match agentCall projectId stepId workspaceBase
                  (Project.description currentProject) with
  | None => throw (mkError (str "Unknown step: " ++ stepId))
  | Some call =>
      awaitRunAgent call ;;
      completed ← waitLoop loopFuel currentProject projectId stepId
                           workspaceBase false 0;
      if negb completed
      then throw (mkError (stepId ++ str " timed out after 5 minutes"))
      else mret tt
  end.

(** The outer [catch (error)]. *)
Definition onStepError (currentProject : Project.t) (stepId : jsstring)
    (error : JsError) : Eff unit :=
  updateProjectStep (Project.id currentProject) stepId markError ;;
  let cleanErrorMessage := sanitizeErrorMessage error in
  addMessage MessageType.system
    (str "Error in " ++ stepId ++ str " phase: " ++ cleanErrorMessage)
    (stepMetadata stepId).

(** [handleStepAction] of [page.tsx]. [currentProject] and [projectId] are
    the values its closure holds; [action] is not looked at. (The variant of
    the page with a [load] action returns from that branch before any of the
    code below and is the same from [setIsRunning(true)] on.) *)
Definition handleStepAction (currentProject : option Project.t)
    (projectId stepId : jsstring) (action : Action) : Eff unit :=
  match currentProject with
  | None => mret tt
  | Some currentProject =>
      setIsRunning true ;;
      setProcessing true ;;
      try_finally
        (try_catch (runStep currentProject projectId stepId)
                   (onStepError currentProject stepId))
        (setIsRunning false ;; setProcessing false)
  end.

End WithBackend.

(** *** Observations on the final world *)

(** The statuses of the steps named [stepId] of the projects with identifier
    [projectId] in the list of projects. *)
Definition stepStatuses (projectId stepId : jsstring) (st : AppState)
    : list StepStatus.t :=
  flat_map
    (λ p, map ProjectStep.status (List.filter (stepHasId stepId) (Project.steps p)))
    (List.filter (hasId projectId) (projects st)).

(** The same for [currentProject]. *)
Definition currentStepStatuses (projectId stepId : jsstring) (st : AppState)
    : list StepStatus.t :=
  match currentProject st with
  | Some p =>
      if hasId projectId p
      then map ProjectStep.status (List.filter (stepHasId stepId) (Project.steps p))
      else []
  | None => []
  end.

(** What one answer of [getProject] says about the step. *)
Inductive Observation : Type :=
| SeesCompleted
| SeesError
| SeesNothing.

Definition observe (stepId : jsstring) (r : Response (list ApiStep.t)) : Observation :=
  match r with
  | Rejected _ => SeesNothing
  | Resolved steps =>
      match find (λ s, bool_decide (ApiStep.id s = stepId)) steps with
      | Some step =>
          if bool_decide (ApiStep.status step = str "completed") then SeesCompleted
          else if bool_decide (ApiStep.status step = str "error") then SeesError
          else SeesNothing
      | None => SeesNothing
      end
  end.

#[global] Instance observation_eq_dec : EqDecision Observation.
Proof. solve_decision. Defined.

(** What the [k]-th call of [getProject] shows of the step. *)
Definition seen (backend : Backend) (projectId stepId : jsstring) (k : nat)
    : Observation :=
  observe stepId (getProject backend k projectId).

(** [w'] is [w] after [n] iterations of the loop that changed nothing but
    the clock, the count of polls and the console. *)
Definition waited (n : nat) (w w' : World) : Prop :=
  store w' = store w
  ∧ isRunning w' = isRunning w
  ∧ uuidsDrawn w' = uuidsDrawn w
  ∧ requests w' = requests w
  ∧ polls w' = (polls w + n)%nat
  ∧ clock w' = clock w + 10000 * Z.of_nat n.

(** The content of the last chat message. *)
Definition lastMessage (st : AppState) : option jsstring :=
  ChatMessage.content <$> last (messages st).

(** *** What a completed answer stores *)

(** [step.output ? cleanUnicodeText(step.output) : `${stepId} completed`] *)
Definition cleanOutputOf (stepId : jsstring) (step : ApiStep.t) : jsstring :=
  match ApiStep.output step with
  | Some o => if falsy o then stepId ++ str " completed" else cleanUnicodeText o
  | None => stepId ++ str " completed"
  end.

(** [step.file_path || `${workspaceBase}/${stepId}.md`] *)
Definition filePathOf (stepId workspaceBase : jsstring) (step : ApiStep.t)
    : jsstring :=
  opt_or_else (ApiStep.file_path step)
              (workspaceBase ++ str "/" ++ stepId ++ str ".md").

(** The world after the iteration that saw [step] completed. *)
Definition completedWorld (backend : Backend) (currentProject : Project.t)
    (stepId workspaceBase : jsstring) (step : ApiStep.t) (w : World) : World :=
  mkWorld
    (Store.addMessage MessageType.assistant
       (stepId ++ str " phase completed successfully!") (stepMetadata stepId)
       (randomUUID backend (uuidsDrawn w)) (clock w + 10000)
       (Store.updateProjectStep (Project.id currentProject) stepId
          (markCompleted (cleanOutputOf stepId step)
                         (filePathOf stepId workspaceBase step))
          (clock w + 10000) (store w)))
    (isRunning w) (console w) (clock w + 10000) (S (polls w))
    (S (uuidsDrawn w)) (requests w).

(** The output and the file path of the steps named [stepId] of the projects
    with identifier [projectId]. *)
Definition stepOutputs (projectId stepId : jsstring) (st : AppState)
    : list (option jsstring * option jsstring) :=
  flat_map
    (λ p, map (λ s, (ProjectStep.output s, ProjectStep.filePath s))
              (List.filter (stepHasId stepId) (Project.steps p)))
    (List.filter (hasId projectId) (projects st)).

(** The fields of a project that a run of a step has no business with, and
    the identifiers of its steps: everything but [updatedAt] and the contents
    of the steps. *)
Definition projectHeader (p : Project.t)
    : jsstring * jsstring * jsstring * ProjectStatus.t * jsstring * Date
      * option Date * list jsstring :=
  (Project.id p, Project.name p, Project.description p, Project.status p,
   Project.workspace p, Project.createdAt p, Project.archivedAt p,
   map ProjectStep.id (Project.steps p)).

(** The headers of the projects of the list and of [currentProject]. *)
Definition projectHeaders (st : AppState) :=
  (map projectHeader (projects st), projectHeader <$> currentProject st).

(** *** The archive panel and a click on a step's button *)

(** [getOverallProgress() === 100]: the completed steps divided by all
    steps, times 100, is 100 exactly when the project has a step and all its
    steps are completed (without a step the quotient is [NaN]). *)
Definition overallProgressIs100 (p : Project.t) : bool :=
  let completedSteps :=
    length (List.filter
              (λ step, bool_decide (ProjectStep.status step = StepStatus.completed))
              (Project.steps p)) in
  negb (length (Project.steps p) =? 0)%nat
  && (completedSteps =? length (Project.steps p))%nat.

(** The condition under which the page shows the panel "Project Completed!"
    with the archive button:
    [currentProject?.status === 'completed' && getOverallProgress() === 100]. *)
Definition archivePanelShown (currentProject : option Project.t) : bool :=
  match currentProject with
  | Some p =>
      bool_decide (Project.status p = ProjectStatus.completed)
      && overallProgressIs100 p
  | None => false
  end.

(** A click on the run button of a step: [handleStepAction] runs with the
    [currentProject] the page has read from the store, and the world it
    leaves is the world of the next click. *)
Definition clickRun (backend : Backend) (projectId stepId : jsstring)
    (w : World) : World :=
  (handleStepAction backend (currentProject (store w)) projectId stepId run w).2.

(** *** A project and scripted back ends for the examples *)

Definition demoProject : Project.t :=
  newProject (str "demo") (str "a demo") (str "id-1") 0.

(** The page opened on the freshly created project. *)
Definition demoWorld : World :=
  mkWorld (stateAfter [CreateProject (str "demo") (str "a demo") (str "id-1") 0])
          false [] 0 0 0 [].

(** An answer of [getProject] with one step. *)
Definition reports (stepId status : jsstring) (output error : option jsstring)
    : Response (list ApiStep.t) :=
  Resolved [ApiStep.mk stepId status output None error].

(** A back end that accepts every request and answers the [n]-th poll with
    [answers n]. *)
Definition scriptedBackend (answers : nat → Response (list ApiStep.t)) : Backend :=
  mkBackend (λ _, Resolved tt) (λ n _, answers n)
            (λ n, str "uuid-" ++ [0x30 + Z.of_nat n]).

(** The job never leaves [in_progress]. *)
Definition stuckBackend : Backend :=
  scriptedBackend (λ _, reports (str "analysis") (str "in_progress") None None).

(** The job fails with the message [boom] and stays failed. *)
Definition failedBackend : Backend :=
  scriptedBackend
    (λ _, reports (str "analysis") (str "error") None (Some (str "boom"))).

(** The job is reported [in_progress] at the first two polls and completed
    from the third on, with an output that ends in U+2705. *)
Definition completingBackend : Backend :=
  scriptedBackend
    (λ n, if (n <? 2)%nat
          then reports (str "analysis") (str "in_progress") None None
          else reports (str "analysis") (str "completed")
                       (Some (str "done " ++ [0x2705])) None).

(** A back end that refuses every request. *)
Definition rejectingBackend : Backend :=
  mkBackend (λ _, Rejected (mkError (str "HTTP error! status: 500")))
            (λ _ _, Resolved [])
            (λ n, str "uuid-" ++ [0x30 + Z.of_nat n]).

(** The first poll reports the failure [boom]; from the second poll on the
    job is reported completed. *)
Definition failedThenCompletedBackend : Backend :=
  scriptedBackend
    (λ n, match n with
          | O => reports (str "analysis") (str "error") None (Some (str "boom"))
          | S _ => reports (str "analysis") (str "completed")
                           (Some (str "the analysis")) None
          end).

(** Every job is done by the time of the first poll: each step is reported
    completed with an output. *)
Definition allCompletedBackend : Backend :=
  scriptedBackend
    (λ _, Resolved
            (map (λ stepId, ApiStep.mk stepId (str "completed")
                                       (Some (str "done")) None None)
                 [str "analysis"; str "architecture"; str "planning";
                  str "optimization"])).

End Page.

(** ** The API client ([lib/api.ts]) *)

Module Api.

(** [s.startsWith(pat)] and [s.includes(pat)] on code units. *)
Fixpoint startsWith (pat s : jsstring) : bool :=
  match pat, s with
  | [], _ => true
  | _ :: _, [] => false
  | p :: pat', c :: s' => (p =? c) && startsWith pat' s'
  end.

Fixpoint includes (pat s : jsstring) : bool :=
  startsWith pat s ||
  match s with
  | [] => false
  | _ :: tl => includes pat tl
  end.

(** What the error block of [request] reads from the body of a failed
    response: [response.json()] rejects or gives [null] (reading a property
    of [null] throws, and the inner [catch] takes over), gives a string, or
    gives any other value, of which only the properties [detail] and
    [message] are read.  A property is [None] when it is missing or falsy,
    and otherwise the text it has as the message of an error. *)
Inductive ErrorBody :=
| Unreadable
| StringBody (s : jsstring)
| OtherBody (detail message : option jsstring).

(** The values [request] catches and throws: a [TypeError], an [ApiError]
    with its [status] and [response], any other [Error] (an [AbortError] and
    a [SyntaxError] among them), or a value that is no [Error], whose
    [message] then stands for [String(error)]. *)
Inductive ErrorClass :=
| TypeErrorClass
| ApiErrorClass (status : Z) (response : option ErrorBody)
| PlainErrorClass
| NotAnError.

Record Thrown := mkThrown {
  class : ErrorClass;
  name : jsstring;
  message : jsstring
}.

(** [new Error(msg)] *)
Definition newError (msg : jsstring) : Thrown :=
  mkThrown PlainErrorClass (str "Error") msg.

(** [new ApiError(msg, status, response)] *)
Definition newApiError (msg : jsstring) (status : Z)
    (response : option ErrorBody) : Thrown :=
  mkThrown (ApiErrorClass status response) (str "ApiError") msg.

(** [error instanceof TypeError], [error instanceof Error] and
    [error instanceof ApiError]. *)
Definition isTypeError (e : Thrown) : bool :=
  match class e with TypeErrorClass => true | _ => false end.

Definition isError (e : Thrown) : bool :=
  match class e with NotAnError => false | _ => true end.

Definition isApiError (e : Thrown) : bool :=
  match class e with ApiErrorClass _ _ => true | _ => false end.

(** A promise that has settled. *)
Inductive Settled (A : Type) :=
| Fulfilled (a : A)
| Rejected (e : Thrown).

Arguments Fulfilled {A} a.
Arguments Rejected {A} e.

(** The template literal [`${n}`] for an integer. *)
Definition decimal (n : Z) : jsstring := str (pretty n).

Section Request.

(** The type [T] of the answer. *)
Variable Data : Type.

(** The parts of a [Response] that [request] reads. *)
Record HttpResponse := mkResponse {
  status : Z;
  statusText : jsstring;
  errorBody : ErrorBody;
  contentType : option jsstring;
  json : Settled Data;
  text : Settled Data
}.

(** [response.ok]: the status is in the range 200-299. *)
Definition ok (r : HttpResponse) : bool :=
  (200 <=? status r) && (status r <=? 299).

(** One call of [fetch]: it rejects, or it resolves to a response. *)
Inductive FetchOutcome :=
| FetchRejects (e : Thrown)
| FetchResponse (r : HttpResponse).

(** [errorMessage] at the end of the error block (lines 40-57). *)
Definition errorMessageOf (r : HttpResponse) : jsstring :=
  let errorMessage := str "HTTP error! status: " ++ decimal (status r) in
  match errorBody r with
  | Unreadable => or_else (statusText r) errorMessage
  | StringBody s => s
  | OtherBody (Some detail) _ => detail
  | OtherBody None (Some message) => message
  | OtherBody None None => errorMessage
  end.

(** [errorDetails] at the end of the error block. *)
Definition errorDetailsOf (r : HttpResponse) : option ErrorBody :=
  match errorBody r with
  | Unreadable => None
  | body => Some body
  end.

(** How one turn of the loop ends: with [return data], with a [throw] that
    leaves [request], or at the top of the loop again after sleeping [ms]
    milliseconds; [caught] is the error the [catch] block stored in
    [lastError] on the way, if it ran. *)
Inductive Next :=
| Done (data : Data)
| Raise (e : Thrown)
| Again (ms : Z) (caught : option Thrown).

Variables baseURL endpoint : jsstring.
Variable retries : Z.

(** [(attempt + 1) * 1000] *)
Definition backoff (attempt : Z) : Z := (attempt + 1) * 1000.

(** The [catch] block (lines 88-132). *)
Definition onCaught (attempt : Z) (error : Thrown) : Next :=
  if isTypeError error
     && (includes (str "fetch") (message error)
         || includes (str "Failed to fetch") (message error))
  then
    if attempt =? retries
    then Raise (newError (str "Cannot connect to backend server at " ++ baseURL
                          ++ str ". Please ensure the backend is running on the correct port."))
    else Again (backoff attempt) (Some error)
  else if isError error
          && (bool_decide (name error = str "AbortError")
              || includes (str "timeout") (message error))
  then
    if attempt =? retries
    then Raise (newError (str "Request to " ++ endpoint
                          ++ str " timed out after " ++ decimal 30000 ++ str "ms"))
    else Again (backoff attempt) (Some error)
  else if isTypeError error && includes (str "CORS") (message error)
  then Raise (newError (str "CORS error when connecting to " ++ baseURL
                        ++ str ". Backend CORS configuration may be incorrect."))
  else if isApiError error
  then Raise error
  else if attempt =? retries
  then Raise (newError (str "API request to " ++ endpoint ++ str " failed after "
                        ++ decimal (retries + 1) ++ str " attempts: "
                        ++ message error))
  else Again (backoff attempt) (Some error).

(** An awaited promise inside the [try] block: a rejection goes to the
    [catch] block. *)
Definition returned (attempt : Z) (p : Settled Data) : Next :=
  match p with
  | Fulfilled data => Done data
  | Rejected e => onCaught attempt e
  end.

(** The body of the loop (lines 30-132), given what [fetch] does. *)
Definition attemptOnce (attempt : Z) (fetched : FetchOutcome) : Next :=
  match fetched with
  | FetchRejects e => onCaught attempt e
  | FetchResponse response =>
      if negb (ok response) then
        let thrown := newApiError (errorMessageOf response) (status response)
                                  (errorDetailsOf response) in
        if (400 <=? status response) && (status response <? 500)
        then onCaught attempt thrown
        else if attempt =? retries
        then onCaught attempt thrown
        else Again (backoff attempt) None
      else
        match contentType response with
        | Some ct =>
            if negb (falsy ct) && includes (str "application/json") ct
            then returned attempt (json response)
            else returned attempt (text response)
        | None => returned attempt (text response)
        end
  end.

(** How [request] ends, with the number of calls of [fetch] and the time
    slept between them. *)
Inductive Result :=
| Returned (data : Data)
| Threw (e : Thrown)
| ThrewAfterLoop (e : Thrown)
| OutOfFuel.

Record Outcome := mkOutcome {
  result : Result;
  fetches : nat;
  slept : Z
}.

(** The world: the [n]-th call of [fetch] gives [fetch n]. *)
Variable fetch : nat → FetchOutcome.

(** The loop from [attempt] on, and the [throw] after it (line 135). *)
Fixpoint attempts (fuel : nat) (attempt : Z) (lastError : option Thrown)
    (calls : nat) (sleep : Z) : Outcome :=
  if attempt <=? retries then
    match fuel with
    | O => mkOutcome OutOfFuel calls sleep
    | S fuel' =>
        match attemptOnce attempt (fetch calls) with
        | Done data => mkOutcome (Returned data) (S calls) sleep
        | Raise e => mkOutcome (Threw e) (S calls) sleep
        | Again ms caught =>
            attempts fuel' (attempt + 1)
                     (match caught with Some e => Some e | None => lastError end)
                     (S calls) (sleep + ms)
        end
    end
  else
    mkOutcome
      (ThrewAfterLoop
         (default (newError (str "API request to " ++ endpoint
                             ++ str " failed after " ++ decimal (retries + 1)
                             ++ str " attempts"))
                  lastError))
      calls sleep.

(** [request(endpoint, options, retries)]; the loop has at most
    [retries + 1] turns. *)
Definition request : Outcome :=
  attempts (Z.to_nat (retries + 1)) 0 None 0 0.

End Request.

Arguments mkResponse {Data}.
Arguments status {Data}.
Arguments statusText {Data}.
Arguments errorBody {Data}.
Arguments contentType {Data}.
Arguments json {Data}.
Arguments text {Data}.
Arguments ok {Data}.
Arguments FetchRejects {Data}.
Arguments FetchResponse {Data}.
Arguments errorMessageOf {Data}.
Arguments errorDetailsOf {Data}.
Arguments Done {Data}.
Arguments Raise {Data}.
Arguments Again {Data}.
Arguments Returned {Data}.
Arguments Threw {Data}.
Arguments ThrewAfterLoop {Data}.
Arguments OutOfFuel {Data}.
Arguments mkOutcome {Data}.
Arguments result {Data}.
Arguments fetches {Data}.
Arguments slept {Data}.
Arguments onCaught {Data}.
Arguments returned {Data}.
Arguments attemptOnce {Data}.
Arguments attempts {Data}.
Arguments request {Data}.

(** Scripted worlds for the examples: the server answers 503 [k] times and
    then with a JSON body; the server is not reachable; the server answers
    404. *)
Definition serverError : HttpResponse jsstring :=
  mkResponse 503 (str "Service Unavailable") Unreadable None
             (Rejected (mkThrown PlainErrorClass (str "SyntaxError")
                                 (str "Unexpected end of JSON input")))
             (Fulfilled []).

Definition jsonAnswer (data : jsstring) : HttpResponse jsstring :=
  mkResponse 200 (str "OK") Unreadable (Some (str "application/json"))
             (Fulfilled data) (Fulfilled data).

Definition recovering (k : nat) (data : jsstring) : nat → FetchOutcome jsstring :=
  λ n, if bool_decide (n < k)%nat then FetchResponse serverError
       else FetchResponse (jsonAnswer data).

Definition unreachable : nat → FetchOutcome jsstring :=
  λ _, FetchRejects (mkThrown TypeErrorClass (str "TypeError")
                              (str "Failed to fetch")).

Definition notFound (detail : jsstring) : nat → FetchOutcome jsstring :=
  λ _, FetchResponse
         (mkResponse 404 (str "Not Found") (OtherBody (Some detail) None)
                     (Some (str "application/json"))
                     (Fulfilled []) (Fulfilled [])).

End Api.

(** ** The dashboard ([app/dashboard/page.tsx]) *)

Module Dashboard.
Import Store.

(** [p.status !== 'archived'] *)
Definition notArchived (p : Project.t) : bool :=
  negb (bool_decide (Project.status p = ProjectStatus.archived)).

(** [(a, b) => b.updatedAt.getTime() - a.updatedAt.getTime()] *)
Definition byUpdatedAtDesc (a b : Project.t) : Z :=
  Project.updatedAt b - Project.updatedAt a.

(** [l.sort(compare)], as the stable sort it is: [x] goes before the first
    entry that [compare] does not put before it, so that entries that compare
    equal keep their order. *)
Fixpoint insertBy {A : Type} (compare : A → A → Z) (x : A) (l : list A) : list A :=
  match l with
  | [] => [x]
  | y :: tl =>
      if compare x y <=? 0 then x :: y :: tl
      else y :: insertBy compare x tl
  end.

Fixpoint sortBy {A : Type} (compare : A → A → Z) (l : list A) : list A :=
  match l with
  | [] => []
  | x :: tl => insertBy compare x (sortBy compare tl)
  end.

(** [projects.filter(...).sort(...).slice(0, 6)] *)
Definition recentProjects (projects : list Project.t) : list Project.t :=
  take 6 (sortBy byUpdatedAtDesc (List.filter notArchived projects)).

(** [handleArchive]: [updateProject(project.id, { status: 'archived' })] *)
Definition handleArchive (project : Project.t) (now : Date) (st : AppState)
    : AppState :=
  updateProject (Project.id project)
    (ProjectUpdates.mk None None None (Some ProjectStatus.archived)
                       None None None None None)
    now st.

End Dashboard.

(** * Properties *)

(** ** The sanitizer *)

Section Sanitizer.
Import Utils.

Lemma removeClass_outside (lo hi : Z) (s : jsstring) :
  Forall (λ c, inRange lo hi c = false) s → removeClass lo hi s = s.
Proof.
  unfold removeClass. induction 1 as [|c s Hc _ IH]; [done|].
  rewrite filter_cons_True by done. by rewrite IH.
Qed.

Lemma removeClass_clears (lo hi : Z) (s : jsstring) :
  Forall (λ c, inRange lo hi c = false) (removeClass lo hi s).
Proof.
  apply Forall_forall. intros c Hc.
  apply list_elem_of_filter in Hc. tauto.
Qed.

Lemma removeClass_keeps (P : Z → Prop) (lo hi : Z) (s : jsstring) :
  Forall P s → Forall P (removeClass lo hi s).
Proof.
  rewrite !Forall_forall. intros H c Hc.
  apply list_elem_of_filter in Hc. apply H. tauto.
Qed.

Lemma removeEmojiSurrogatePairs_no_high (s : jsstring) :
  Forall (λ c, isHighEmojiSurrogate c = false) s →
  removeEmojiSurrogatePairs s = s.
Proof.
  induction 1 as [|h tl Hh Htl IH]; [done|].
  destruct tl as [|l rest]; [done|].
  change (removeEmojiSurrogatePairs (h :: l :: rest))
    with (if isHighEmojiSurrogate h && isLowSurrogate l
          then removeEmojiSurrogatePairs rest
          else h :: removeEmojiSurrogatePairs (l :: rest)).
  rewrite Hh. simpl andb. cbv iota. by rewrite IH.
Qed.

Lemma ascii_outside (lo hi c : Z) :
  0x7F < lo → 0 ≤ c ≤ 0x7F → inRange lo hi c = false.
Proof. unfold inRange. intros. apply andb_false_iff. left. lia. Qed.

Lemma ascii_all_outside (lo hi : Z) (s : jsstring) :
  0x7F < lo → Forall (λ c, 0 ≤ c ≤ 0x7F) s →
  Forall (λ c, inRange lo hi c = false) s.
Proof.
  intros Hlo Hs. eapply Forall_impl; [exact Hs|].
  intros c. by apply ascii_outside.
Qed.

(** C10: on a string whose code units all lie in U+0000..U+007F, control
    characters included, [cleanUnicodeText] returns the string itself. *)
Theorem cleanUnicodeText_ascii_identity (text : jsstring) :
  Forall (λ c, 0 ≤ c ≤ 0x7F) text → cleanUnicodeText text = text.
Proof.
  intros Hascii. unfold cleanUnicodeText.
  destruct (falsy text); [done|].
  rewrite removeEmojiSurrogatePairs_no_high
    by (unfold isHighEmojiSurrogate; apply ascii_all_outside; [lia|done]).
  unfold removeMiscSymbols, removeDingbats, removeVariationSelectors,
    removeZeroWidthJoiner.
  rewrite (removeClass_outside 0x2600) by (apply ascii_all_outside; [lia|done]).
  rewrite (removeClass_outside 0x2700) by (apply ascii_all_outside; [lia|done]).
  rewrite (removeClass_outside 0xFE00) by (apply ascii_all_outside; [lia|done]).
  apply removeClass_outside, ascii_all_outside; [lia|done].
Qed.

Lemma cleanUnicodeText_ascii_identity_witness :
  cleanUnicodeText (str "step 1" ++ [0x07; 0x0A; 0x7F]) = str "step 1" ++ [0x07; 0x0A; 0x7F].
Proof.
  apply cleanUnicodeText_ascii_identity.
  match goal with
  | |- Forall _ ?l => let l' := eval vm_compute in l in change l with l'
  end.
  repeat (apply Forall_cons; split; [lia|]). apply Forall_nil_2.
Defined.

Lemma removeEmojiSurrogatePairs_paired (n : nat) :
  ∀ s : jsstring,
    (length s ≤ n)%nat →
    highSurrogatesPaired s = true →
    Forall (λ c, isHighEmojiSurrogate c = false) (removeEmojiSurrogatePairs s).
Proof.
  induction n as [|n IH]; intros s Hlen Hpaired.
  - destruct s; [apply Forall_nil_2|cbn in Hlen; lia].
  - destruct s as [|h [|l rest]]; [apply Forall_nil_2| |].
    + cbn in Hpaired. rewrite orb_false_r, andb_true_r in Hpaired.
      apply negb_true_iff in Hpaired.
      apply Forall_cons. split; [exact Hpaired|apply Forall_nil_2].
    + change (removeEmojiSurrogatePairs (h :: l :: rest))
        with (if isHighEmojiSurrogate h && isLowSurrogate l
              then removeEmojiSurrogatePairs rest
              else h :: removeEmojiSurrogatePairs (l :: rest)).
      change (highSurrogatesPaired (h :: l :: rest))
        with ((negb (isHighEmojiSurrogate h) || isLowSurrogate l)
              && highSurrogatesPaired (l :: rest)) in Hpaired.
      apply andb_true_iff in Hpaired as [Hh Htl].
      cbn [length] in Hlen.
      destruct (isHighEmojiSurrogate h) eqn:Hhigh; cbn [andb negb orb] in *.
      * rewrite Hh. apply IH; [lia|].
        change (highSurrogatesPaired (l :: rest))
          with ((negb (isHighEmojiSurrogate l)
                 || match rest with l' :: _ => isLowSurrogate l' | [] => false end)
                && highSurrogatesPaired rest) in Htl.
        by apply andb_true_iff in Htl as [_ ?].
      * apply Forall_cons. split; [exact Hhigh|].
        apply IH; [cbn [length]; lia|exact Htl].
Qed.

Lemma no_high_no_pair (s : jsstring) :
  Forall (λ c, isHighEmojiSurrogate c = false) s →
  hasEmojiSurrogatePair s = false.
Proof.
  induction 1 as [|h tl Hh _ IH]; [done|].
  destruct tl as [|l rest]; [done|].
  change (hasEmojiSurrogatePair (h :: l :: rest))
    with ((isHighEmojiSurrogate h && isLowSurrogate l)
          || hasEmojiSurrogatePair (l :: rest)).
  by rewrite Hh, IH.
Qed.

(** C6, as the code has it: the result of [cleanUnicodeText] contains no
    variation selector U+FE00..U+FE0F, no zero-width joiner U+200D, no
    miscellaneous symbol U+2600..U+26FF and no dingbat U+2700..U+27BF,
    whatever the input. When every code unit U+D83C..U+DBFF of the input is
    directly followed by a low surrogate, as in all well-formed text, the
    result contains no code unit U+D83C..U+DBFF either, and so no emoji
    surrogate pair. Control characters are not looked at. *)
Theorem cleanUnicodeText_removed_classes (text : jsstring) :
  Forall (λ c, isVariationSelector c = false
               ∧ inRange 0x200D 0x200D c = false
               ∧ inRange 0x2600 0x26FF c = false
               ∧ inRange 0x2700 0x27BF c = false)
         (cleanUnicodeText text)
  ∧ (highSurrogatesPaired text = true →
     Forall (λ c, isHighEmojiSurrogate c = false) (cleanUnicodeText text)
     ∧ hasEmojiSurrogatePair (cleanUnicodeText text) = false).
Proof.
  split.
  - unfold cleanUnicodeText. destruct text as [|c text]; [apply Forall_nil_2|].
    cbn [falsy]. set (s := removeEmojiSurrogatePairs (c :: text)).
    unfold removeZeroWidthJoiner, removeVariationSelectors, removeDingbats,
      removeMiscSymbols, isVariationSelector.
    repeat (apply Forall_and; split).
    + apply removeClass_keeps, removeClass_clears.
    + apply removeClass_clears.
    + do 3 apply removeClass_keeps. apply removeClass_clears.
    + do 2 apply removeClass_keeps. apply removeClass_clears.
  - intros Hpaired.
    assert (Forall (λ c, isHighEmojiSurrogate c = false) (cleanUnicodeText text))
      as Hclean.
    { unfold cleanUnicodeText. destruct text as [|c text]; [apply Forall_nil_2|].
      cbn [falsy].
      unfold removeZeroWidthJoiner, removeVariationSelectors, removeDingbats,
        removeMiscSymbols.
      do 4 apply removeClass_keeps.
      by apply (removeEmojiSurrogatePairs_paired (length (c :: text))). }
    split; [exact Hclean|by apply no_high_no_pair].
Qed.

Lemma cleanUnicodeText_removed_classes_witness :
  let text := str "ok " ++ [0xD83D; 0xDE00; 0x2600; 0xFE0F; 0x07; 0x2764; 0x200D] in
  cleanUnicodeText text = str "ok " ++ [0x07]
  ∧ Forall (λ c, isHighEmojiSurrogate c = false) (cleanUnicodeText text)
  ∧ hasEmojiSurrogatePair (cleanUnicodeText text) = false.
Proof.
  intros text. split; [vm_compute; reflexivity|].
  apply (proj2 (cleanUnicodeText_removed_classes text)).
  vm_compute. reflexivity.
Defined.

(** C6, as stated, fails: a control character passes through unchanged,
    and removing the symbol between two surrogates leaves an emoji pair
    (U+1F600) in the result. *)
Lemma cleanUnicodeText_keeps_control_and_pair :
  cleanUnicodeText [0x07] = [0x07]
  ∧ spec_safeSubset (cleanUnicodeText [0x07]) = false
  ∧ cleanUnicodeText [0xD83D; 0x2600; 0xDE00] = [0xD83D; 0xDE00]
  ∧ spec_safeSubset (cleanUnicodeText [0xD83D; 0x2600; 0xDE00]) = false.
Proof. repeat split; vm_compute; reflexivity. Qed.

End Sanitizer.

(** ** The store *)

Section StoreFacts.
Import Store.

Lemma find_hasId_Some (id : jsstring) (l : list Project.t) :
  (∃ q, q ∈ l ∧ Project.id q = id) → ∃ q, find (hasId id) l = Some q.
Proof.
  intros (q & Hq & Hid). induction Hq as [q l|q q' l Hq IH]; simpl.
  - unfold hasId at 1. rewrite bool_decide_eq_true_2 by done. eauto.
  - destruct (hasId id q'); eauto.
Qed.

Lemma find_hasId_None (id : jsstring) (l : list Project.t) :
  (¬ ∃ q, q ∈ l ∧ Project.id q = id) → find (hasId id) l = None.
Proof.
  intros Hno. destruct (find (hasId id) l) as [q|] eqn:E; [|done].
  apply find_some in E as [Hin Hq]. destruct Hno. exists q. split.
  - by apply list_elem_of_In.
  - unfold hasId in Hq. by apply bool_decide_eq_true_1 in Hq.
Qed.

(** C9: [addProject] returns the state itself when a project of the list
    already has the identifier of [project]; otherwise the list gets
    [project] at its end and every other field of the state is kept. *)
Theorem addProject_duplicate_safe (project : Project.t) (st : AppState) :
  ((∃ q, q ∈ projects st ∧ Project.id q = Project.id project) →
   addProject project st = st)
  ∧ ((¬ ∃ q, q ∈ projects st ∧ Project.id q = Project.id project) →
     addProject project st
     = mkState (sidebarOpen st) (darkMode st) (currentProject st)
               (projects st ++ [project]) (messages st) (isProcessing st)
               (activeFile st) (openFiles st) (fileContents st)).
Proof.
  split; intros H; unfold addProject.
  - apply find_hasId_Some in H as [q ->]. done.
  - by rewrite find_hasId_None.
Qed.

Lemma addProject_duplicate_safe_witness :
  let p := newProject (str "demo") (str "first") (str "id-1") 0 in
  let q := newProject (str "other") (str "second") (str "id-2") 5 in
  let st := createProject (str "demo") (str "first") (str "id-1") 0 initialState in
  addProject p st = st
  ∧ projects (addProject q st) = [p; q]
  ∧ currentProject (addProject q st) = Some p.
Proof.
  intros p q st. split; [|split].
  - apply (proj1 (addProject_duplicate_safe p st)).
    exists p. split; [apply list_elem_of_here|reflexivity].
  - rewrite (proj2 (addProject_duplicate_safe q st)); [reflexivity|].
    intros (r & Hr & Hid). apply list_elem_of_singleton in Hr. subst r.
    vm_compute in Hid. discriminate Hid.
  - rewrite (proj2 (addProject_duplicate_safe q st)); [reflexivity|].
    intros (r & Hr & Hid). apply list_elem_of_singleton in Hr. subst r.
    vm_compute in Hid. discriminate Hid.
Defined.

(** *** The project status *)

Lemma map_status_updateProjectStep (projectId stepId : jsstring)
    (updates : StepUpdates.t) (now : Date) (l : list Project.t) :
  map Project.status
      (map (λ p, if hasId projectId p
                 then withUpdatedStep stepId updates now p else p) l)
  = map Project.status l.
Proof.
  induction l as [|p l IH]; [done|]. simpl. rewrite IH.
  by destruct (hasId projectId p).
Qed.

(** The status of a project is a stored field: [createProject] stores
    [draft], and [updateProjectStep], the action that changes the status of
    a step, leaves the status of every project of the list and of
    [currentProject] as it was. *)
Theorem updateProjectStep_keeps_project_status `{!Engine}
    (projectId stepId : jsstring) (updates : StepUpdates.t) (now : Date)
    (st : AppState) :
  map Project.status (projects (updateProjectStep projectId stepId updates now st))
  = map Project.status (projects st)
  ∧ Project.status <$> currentProject (updateProjectStep projectId stepId updates now st)
    = Project.status <$> currentProject st
  ∧ ∀ name description uuid,
      Project.status (newProject name description uuid now) = ProjectStatus.draft.
Proof.
  split; [|split].
  - apply map_status_updateProjectStep.
  - unfold updateProjectStep. simpl. destruct (currentProject st) as [p|]; [|done].
    simpl. by destruct (hasId projectId p).
  - done.
Qed.

(** *** The workspace path *)

Lemma filter_sublist (f : Project.t → bool) (l : list Project.t) :
  List.filter f l `sublist_of` l.
Proof.
  induction l as [|p l IH]; simpl; [constructor|].
  destruct (f p); by constructor.
Qed.











End StoreFacts.

(** ** The run gate *)

Section RunGate.
Import Store WorkflowSteps.

(** C1, as the code has it: when [canRunStep] answers [true] the step is not
    [in_progress] and it is the first step or the step just before it is
    [completed]; earlier steps are not looked at. *)
Theorem canRunStep_true_previous_completed
    (steps : list ProjectStep.t) (step : ProjectStep.t) (index : nat) :
  canRunStep steps step index = Some true →
  ProjectStep.status step ≠ StepStatus.in_progress
  ∧ (index = 0%nat
     ∨ ∃ previous,
         steps !! (index - 1)%nat = Some previous
         ∧ ProjectStep.status previous = StepStatus.completed).
Proof.
  unfold canRunStep. intros H.
  case_bool_decide as Hrun; [discriminate|]. split; [done|].
  case_bool_decide as Hidx; [by left|]. right.
  destruct (steps !! (index - 1)%nat) as [previous|]; [|discriminate].
  exists previous. split; [done|].
  injection H as H. by apply bool_decide_eq_true_1 in H.
Qed.

Lemma canRunStep_true_previous_completed_witness :
  let steps := stepsWith StepStatus.completed StepStatus.pending
                         StepStatus.pending StepStatus.pending in
  ProjectStep.status (stepAt 1 steps) ≠ StepStatus.in_progress
  ∧ (1%nat = 0%nat
     ∨ ∃ previous,
         steps !! (1 - 1)%nat = Some previous
         ∧ ProjectStep.status previous = StepStatus.completed).
Proof.
  intros steps.
  apply (canRunStep_true_previous_completed steps (stepAt 1 steps) 1).
  vm_compute. reflexivity.
Defined.

(** C1, as stated, fails: with the first step in [error] and the second
    [completed], the third step can run (and the card offers [run]),
    although a step before it is not [completed]. *)
Lemma canRunStep_ignores_earlier_steps :
  let steps := stepsWith StepStatus.error StepStatus.completed
                         StepStatus.pending StepStatus.pending in
  canRunStep steps (stepAt 2 steps) 2 = Some true
  ∧ offeredActions false steps (stepAt 2 steps) 2 = Some [run]
  ∧ steps !! 2%nat = Some (stepAt 2 steps)
  ∧ ProjectStep.status (stepAt 0 steps) = StepStatus.error
  ∧ steps !! 0%nat = Some (stepAt 0 steps).
Proof. repeat split; vm_compute; reflexivity. Qed.

(** C2, as the code has it: [canRunStep] answers [false] whenever the step
    asked about is itself [in_progress]; no other step is looked at for
    that. *)
Theorem canRunStep_false_when_in_progress
    (steps : list ProjectStep.t) (step : ProjectStep.t) (index : nat) :
  ProjectStep.status step = StepStatus.in_progress →
  canRunStep steps step index = Some false.
Proof.
  intros H. unfold canRunStep. by rewrite bool_decide_eq_true_2.
Qed.

Lemma canRunStep_false_when_in_progress_witness :
  let steps := stepsWith StepStatus.completed StepStatus.in_progress
                         StepStatus.pending StepStatus.pending in
  canRunStep steps (stepAt 1 steps) 1 = Some false.
Proof.
  intros steps.
  apply (canRunStep_false_when_in_progress steps (stepAt 1 steps) 1).
  reflexivity.
Defined.

(** C2, as stated, fails: while the first step is [in_progress] again
    (a regeneration, offered on every completed step), the third step can
    run, and the store then holds two steps [in_progress]. The updates are
    those [handleStepAction] dispatches: [markCompleted] at the end of a run,
    [markInProgress] at its start. *)
Lemma two_steps_in_progress :
  let before := stateAfter
    [CreateProject (str "demo") (str "a demo") (str "id-1") 0;
     UpdateProjectStep (str "id-1") (str "analysis")
       (Page.markCompleted (str "the analysis") (str "workspace/demo/analysis.md")) 1;
     UpdateProjectStep (str "id-1") (str "architecture")
       (Page.markCompleted (str "the design") (str "workspace/demo/architecture.md")) 2] in
  let regenerating :=
    perform (UpdateProjectStep (str "id-1") (str "analysis") Page.markInProgress 3)
            before in
  let both :=
    perform (UpdateProjectStep (str "id-1") (str "planning") Page.markInProgress 4)
            regenerating in
  offeredActions false (onlySteps before) (stepAt 0 (onlySteps before)) 0
  = Some [regenerate]
  ∧ onlyStatuses regenerating
    = [StepStatus.in_progress; StepStatus.completed;
       StepStatus.pending; StepStatus.pending]
  ∧ canRunStep (onlySteps regenerating) (stepAt 2 (onlySteps regenerating)) 2
    = Some true
  ∧ offeredActions false (onlySteps regenerating)
                   (stepAt 2 (onlySteps regenerating)) 2
    = Some [run]
  ∧ onlyStatuses both
    = [StepStatus.in_progress; StepStatus.completed;
       StepStatus.in_progress; StepStatus.pending].
Proof. repeat split; vm_compute; reflexivity. Qed.

End RunGate.

(** ** The step driver *)

Import Utils Store Page.

Ltac unfold_eff :=
  unfold pollOnce, pollBody, sleep, consoleError, awaitGetProject, awaitRunAgent,
    Page.updateProjectStep, Page.addMessage, Page.setProcessing, setIsRunning,
    freshUUID, now, dispatch, modify, try_catch, settle, throw, outOfFuel,
    mbind, eff_bind, mret, eff_ret.

Ltac run_eff := unfold_eff; cbn.

(** Running the driver symbolically: the monad and the projections of the
    world are unfolded by need, the store actions and the loop stay folded. *)
Ltac step_eff :=
  lazy beta iota zeta delta
    [handleStepAction try_finally try_catch runStep onStepError
     sleep consoleError awaitGetProject awaitRunAgent
     Page.updateProjectStep Page.addMessage Page.setProcessing setIsRunning
     freshUUID now dispatch modify settle throw outOfFuel
     mbind eff_bind mret eff_ret
     store isRunning console clock polls uuidsDrawn requests].

Section ObservedStatuses.

Variable stepId : jsstring.

(** *** What [updateProjectStep] does to the observed statuses *)

Lemma statuses_updateSteps (updates : StepUpdates.t) (status : StepStatus.t)
    (t : Date) (steps : list ProjectStep.t) :
  StepUpdates.id updates = None →
  StepUpdates.status updates = Some status →
  map ProjectStep.status
      (List.filter (stepHasId stepId) (updateSteps stepId updates t steps))
  = map (λ _, status)
        (map ProjectStep.status (List.filter (stepHasId stepId) steps)).
Proof.
  intros Hid Hstatus. unfold updateSteps.
  induction steps as [|s steps IH]; [done|]. cbn [map List.filter].
  destruct (stepHasId stepId s) eqn:Hs.
  - assert (stepHasId stepId (mergeStep s updates t) = true) as ->.
    { unfold stepHasId, mergeStep in *. cbn. by rewrite Hid. }
    cbn [map]. rewrite IH. f_equal.
    unfold mergeStep. cbn. by rewrite Hstatus.
  - by rewrite Hs.
Qed.

Lemma stepStatuses_updateProjectStep (id : jsstring) (updates : StepUpdates.t)
    (status : StepStatus.t) (t : Date) (st : AppState) :
  StepUpdates.id updates = None →
  StepUpdates.status updates = Some status →
  stepStatuses id stepId (Store.updateProjectStep id stepId updates t st)
  = map (λ _, status) (stepStatuses id stepId st).
Proof.
  intros Hid Hstatus. unfold stepStatuses, Store.updateProjectStep. cbn.
  induction (projects st) as [|p l IH]; [done|]. cbn [map List.filter].
  destruct (hasId id p) eqn:Hp.
  - assert (hasId id (withUpdatedStep stepId updates t p) = true) as ->
      by exact Hp.
    cbn [flat_map]. rewrite map_app, IH. f_equal.
    cbn. by apply statuses_updateSteps.
  - by rewrite Hp.
Qed.

Lemma currentStepStatuses_updateProjectStep (id : jsstring)
    (updates : StepUpdates.t) (status : StepStatus.t) (t : Date) (st : AppState) :
  StepUpdates.id updates = None →
  StepUpdates.status updates = Some status →
  currentStepStatuses id stepId (Store.updateProjectStep id stepId updates t st)
  = map (λ _, status) (currentStepStatuses id stepId st).
Proof.
  intros Hid Hstatus. unfold currentStepStatuses, Store.updateProjectStep. cbn.
  destruct (Store.currentProject st) as [p|]; [|done]. cbn.
  destruct (hasId id p) eqn:Hp; cbn.
  - assert (hasId id (withUpdatedStep stepId updates t p) = true) as ->
      by exact Hp.
    by apply statuses_updateSteps.
  - by rewrite Hp.
Qed.

Lemma stepStatuses_addMessage id type content metadata uuid t st :
  stepStatuses id stepId (Store.addMessage type content metadata uuid t st)
  = stepStatuses id stepId st.
Proof. reflexivity. Qed.

Lemma stepStatuses_setProcessing id processing st :
  stepStatuses id stepId (Store.setProcessing processing st)
  = stepStatuses id stepId st.
Proof. reflexivity. Qed.

Lemma currentStepStatuses_addMessage id type content metadata uuid t st :
  currentStepStatuses id stepId (Store.addMessage type content metadata uuid t st)
  = currentStepStatuses id stepId st.
Proof. reflexivity. Qed.

Lemma currentStepStatuses_setProcessing id processing st :
  currentStepStatuses id stepId (Store.setProcessing processing st)
  = currentStepStatuses id stepId st.
Proof. reflexivity. Qed.

Lemma lastMessage_addMessage type content metadata uuid t st :
  lastMessage (Store.addMessage type content metadata uuid t st) = Some content.
Proof. unfold lastMessage, Store.addMessage. cbn. by rewrite last_snoc. Qed.

Lemma lastMessage_setProcessing processing st :
  lastMessage (Store.setProcessing processing st) = lastMessage st.
Proof. reflexivity. Qed.

Lemma map_const_twice (a b : StepStatus.t) (l : list StepStatus.t) :
  map (λ _, b) (map (λ _, a) l) = map (λ _, b) l.
Proof. induction l; [done|]. cbn. by f_equal. Qed.

End ObservedStatuses.

Ltac observe_store :=
  rewrite ?stepStatuses_setProcessing, ?stepStatuses_addMessage,
    ?currentStepStatuses_setProcessing, ?currentStepStatuses_addMessage.

Section PollingLoop.

Variable backend : Backend.
Variable currentProject : Project.t.
Variables projectId stepId workspaceBase : jsstring.

Local Abbreviation seen := (Page.seen backend projectId stepId).

(** An iteration that does not see the step completed changes nothing but
    the clock, the count of polls and the console, and the loop goes on:
    this holds for an answer in which the step is in [error] too. *)
Lemma pollOnce_quiet (w : World) :
  observe stepId (getProject backend (polls w) projectId) ≠ SeesCompleted →
  ∃ w', pollOnce backend currentProject projectId stepId workspaceBase false w
        = (Normal false, w')
        ∧ waited 1 w w'.
Proof.
  intros Hobs. unfold observe in Hobs. run_eff.
  destruct (getProject backend (polls w) projectId) as [steps|e]; cbn.
  - destruct (find _ steps) as [step|]; cbn.
    + destruct (bool_decide (ApiStep.status step = str "completed")); [done|].
      destruct (bool_decide (ApiStep.status step = str "error")); cbn;
        eexists; (split; [reflexivity|]); unfold waited; cbn;
        repeat split; lia.
    + eexists; (split; [reflexivity|]); unfold waited; cbn; repeat split; lia.
  - eexists; (split; [reflexivity|]); unfold waited; cbn; repeat split; lia.
Qed.

(** An iteration that sees the step completed marks it [completed] in the
    store and ends the loop. *)
Lemma pollOnce_completed (w : World) :
  observe stepId (getProject backend (polls w) projectId) = SeesCompleted →
  ∃ w', pollOnce backend currentProject projectId stepId workspaceBase false w
        = (Normal true, w')
        ∧ polls w' = S (polls w)
        ∧ clock w' = clock w + 10000
        ∧ stepStatuses (Project.id currentProject) stepId (store w')
          = map (λ _, StepStatus.completed)
                (stepStatuses (Project.id currentProject) stepId (store w))
        ∧ currentStepStatuses (Project.id currentProject) stepId (store w')
          = map (λ _, StepStatus.completed)
                (currentStepStatuses (Project.id currentProject) stepId (store w)).
Proof.
  intros Hobs. unfold observe in Hobs. unfold_eff.
  cbn -[Store.updateProjectStep Store.addMessage].
  destruct (getProject backend (polls w) projectId) as [steps|e];
    cbn -[Store.updateProjectStep Store.addMessage]; [|done].
  destruct (find _ steps) as [step|];
    cbn -[Store.updateProjectStep Store.addMessage]; [|done].
  destruct (bool_decide (ApiStep.status step = str "completed"));
    cbn -[Store.updateProjectStep Store.addMessage].
  - eexists. split; [reflexivity|].
    cbn -[Store.updateProjectStep Store.addMessage].
    split; [done|]. split; [done|]. split; observe_store.
    + by rewrite (stepStatuses_updateProjectStep _ _ _ StepStatus.completed).
    + by rewrite (currentStepStatuses_updateProjectStep _ _ _ StepStatus.completed).
  - by destruct (bool_decide (ApiStep.status step = str "error")).
Qed.

Lemma waitLoop_unfold (fuel : nat) (attempts : Z) (w : World) :
  attempts < 30 →
  waitLoop backend (S fuel) currentProject projectId stepId workspaceBase
           false attempts w
  = match pollOnce backend currentProject projectId stepId workspaceBase false w with
    | (Normal completed, w1) =>
        waitLoop backend fuel currentProject projectId stepId workspaceBase
                 completed (attempts + 1) w1
    | (Throw e, w1) => (Throw e, w1)
    | (OutOfFuel, w1) => (OutOfFuel, w1)
    end.
Proof.
  intros Hlt. cbn [waitLoop negb andb].
  by rewrite (proj2 (Z.ltb_lt attempts 30) Hlt).
Qed.

Lemma waitLoop_completed (fuel : nat) (attempts : Z) (w : World) :
  waitLoop backend fuel currentProject projectId stepId workspaceBase
           true attempts w
  = (Normal true, w).
Proof. by destruct fuel. Qed.

Lemma waitLoop_exhausted (fuel : nat) (completed : bool) (attempts : Z) (w : World) :
  30 ≤ attempts →
  waitLoop backend fuel currentProject projectId stepId workspaceBase
           completed attempts w
  = (Normal completed, w).
Proof.
  intros Hge. destruct fuel; cbn [waitLoop];
    rewrite (proj2 (Z.ltb_ge attempts 30) Hge), andb_false_r; done.
Qed.

(** The loop, started with [n] attempts left and at least as much fuel,
    returns: with [completed] set after the first poll that shows the step
    completed, or with [completed] unset after [n] polls, none of which
    showed it. Every poll comes after one timer of 10000 ms. *)
Lemma waitLoop_total (n : nat) :
  ∀ (fuel : nat) (attempts : Z) (w : World),
    attempts = 30 - Z.of_nat n → (n ≤ fuel)%nat →
    ∃ completed w',
      waitLoop backend fuel currentProject projectId stepId workspaceBase
               false attempts w
      = (Normal completed, w')
      ∧ (polls w ≤ polls w' ≤ polls w + n)%nat
      ∧ clock w' = clock w + 10000 * Z.of_nat (polls w' - polls w)
      ∧ ((completed = true
          ∧ (polls w < polls w')%nat
          ∧ seen (polls w' - 1) = SeesCompleted
          ∧ (∀ k, (polls w ≤ k < polls w' - 1)%nat → seen k ≠ SeesCompleted)
          ∧ stepStatuses (Project.id currentProject) stepId (store w')
            = map (λ _, StepStatus.completed)
                  (stepStatuses (Project.id currentProject) stepId (store w))
          ∧ currentStepStatuses (Project.id currentProject) stepId (store w')
            = map (λ _, StepStatus.completed)
                  (currentStepStatuses (Project.id currentProject) stepId (store w)))
         ∨ (completed = false
            ∧ waited n w w'
            ∧ ∀ k, (polls w ≤ k < polls w + n)%nat → seen k ≠ SeesCompleted)).
Proof.
  induction n as [|n IH]; intros fuel attempts w Hatt Hfuel.
  - exists false, w. rewrite waitLoop_exhausted by lia.
    split; [done|]. split; [lia|]. split; [lia|]. right.
    split; [done|]. split; [|intros k Hk; lia].
    unfold waited. repeat split; lia.
  - destruct fuel as [|fuel]; [lia|].
    rewrite waitLoop_unfold by lia.
    destruct (decide (seen (polls w) = SeesCompleted)) as [Hseen|Hseen].
    + destruct (pollOnce_completed w Hseen)
        as (w1 & -> & Hpolls & Hclock & Hsteps & Hcurrent).
      exists true, w1. rewrite waitLoop_completed.
      split; [done|]. split; [lia|]. split; [rewrite Hclock; lia|]. left.
      split; [done|]. split; [lia|]. split; [|split; [|done]].
      * by replace (polls w1 - 1)%nat with (polls w) by lia.
      * intros k Hk. lia.
    + destruct (pollOnce_quiet w Hseen) as (w1 & -> & Hw1).
      destruct Hw1 as (Hst & Hrun & Huu & Hreq & Hpolls & Hclock).
      destruct (IH fuel (attempts + 1) w1) as (c & w' & -> & Hp & Hc & Hend);
        [lia|lia|].
      exists c, w'. split; [done|]. split; [lia|]. split; [lia|].
      destruct Hend as [(-> & Hlt & Hlast & Hnone & Hdone)|(-> & Hwait & Hnone)].
      * left. split; [done|]. split; [lia|]. split; [done|].
        split; [|by rewrite <- Hst].
        intros k Hk. destruct (decide (k = polls w)) as [->|Hne]; [done|].
        apply Hnone. lia.
      * right. split; [done|]. split.
        -- destruct Hwait as (Hst' & Hrun' & Huu' & Hreq' & Hpolls' & Hclock').
           unfold waited. repeat split; try congruence; lia.
        -- intros k Hk. destruct (decide (k = polls w)) as [->|Hne]; [done|].
           apply Hnone. lia.
Qed.

End PollingLoop.

(** The fuel of the loop covers its thirty attempts. *)
Lemma loopFuel_enough : (30 ≤ loopFuel)%nat.
Proof. done. Qed.

(** From here on the loop is used through the lemmas above only. *)
Arguments Page.waitLoop : simpl never.
Opaque loopFuel.

Section StepDriver.

Variable backend : Backend.
Variable currentProject : Project.t.
Variables projectId stepId : jsstring.

Local Abbreviation seen := (Page.seen backend projectId stepId).

(** The loop of [handleStepAction] with no poll showing the step completed:
    thirty quiet iterations. *)
Lemma waitLoop_timeout (workspaceBase : jsstring) (w : World) :
  (∀ k, (polls w ≤ k < polls w + 30)%nat → seen k ≠ SeesCompleted) →
  ∃ w', waitLoop backend loopFuel currentProject projectId stepId workspaceBase
                 false 0 w
        = (Normal false, w')
        ∧ waited 30 w w'.
Proof.
  intros Hnone.
  destruct (waitLoop_total backend currentProject projectId stepId workspaceBase
              30 loopFuel 0 w) as (c & w' & Heq & _ & _ & Hend);
    [done|apply loopFuel_enough|].
  destruct Hend as [(-> & Hlt & Hlast & _)|(-> & Hwait & _)].
  - destruct (waitLoop_total backend currentProject projectId stepId workspaceBase
                30 loopFuel 0 w) as (c2 & w2 & Heq2 & Hp & _);
      [done|apply loopFuel_enough|].
    rewrite Heq in Heq2. injection Heq2 as <- <-.
    destruct (Hnone (polls w' - 1)%nat); [lia|done].
  - by exists w'.
Qed.

(** C7: the waiting loop of [handleStepAction] returns for every sequence
    of answers of the back end. It makes at most 30 polls, each after one
    timer of 10000 ms, so it waits 300000 ms at most. It ends in one of two
    ways, never both: with [completed] set, right after the first poll that
    showed the step completed, the step then being [completed] in the store;
    or with [completed] unset after 30 polls none of which showed it, the
    store being as it was when the loop began. *)
Theorem waitLoop_terminates_within_ceiling (workspaceBase : jsstring) (w : World) :
  ∃ completed w',
    waitLoop backend loopFuel currentProject projectId stepId workspaceBase
             false 0 w
    = (Normal completed, w')
    ∧ (polls w ≤ polls w' ≤ polls w + 30)%nat
    ∧ clock w' - clock w = 10000 * Z.of_nat (polls w' - polls w)
    ∧ clock w' - clock w ≤ 300000
    ∧ ((completed = true
        ∧ (polls w < polls w')%nat
        ∧ seen (polls w' - 1) = SeesCompleted
        ∧ (∀ k, (polls w ≤ k < polls w' - 1)%nat → seen k ≠ SeesCompleted)
        ∧ stepStatuses (Project.id currentProject) stepId (store w')
          = map (λ _, StepStatus.completed)
                (stepStatuses (Project.id currentProject) stepId (store w)))
       ∨ (completed = false
          ∧ polls w' = (polls w + 30)%nat
          ∧ (∀ k, (polls w ≤ k < polls w + 30)%nat → seen k ≠ SeesCompleted)
          ∧ store w' = store w)).
Proof.
  destruct (waitLoop_total backend currentProject projectId stepId workspaceBase
              30 loopFuel 0 w) as (c & w' & Heq & Hp & Hc & Hend);
    [done|apply loopFuel_enough|].
  exists c, w'. split; [done|]. split; [done|]. split; [lia|]. split; [lia|].
  destruct Hend as [(-> & Hlt & Hlast & Hnone & Hdone & _)|(-> & Hwait & Hnone)].
  - left. done.
  - right. unfold waited in Hwait. split; [done|]. split; [tauto|].
    split; [done|tauto].
Qed.

(** [handleStepAction] returns normally whatever the back end answers: every
    error raised inside is caught, and the loop has the fuel it needs. When
    there is a current project the running and processing flags are off at
    the end. *)
Lemma handleStepAction_returns (current : option Project.t) (action : Action)
    (w : World) :
  ∃ w',
    handleStepAction backend current projectId stepId action w = (Normal tt, w')
    ∧ (is_Some current → isRunning w' = false ∧ isProcessing (store w') = false).
Proof.
  destruct current as [cp|];
    [|eexists; split; [reflexivity|intros [? ?]; done]].
  assert (∃ c, agentCall projectId stepId
                 (or_else (Project.workspace cp) (str "workspace/" ++ projectId))
                 (Project.description cp) = c) as [[call|] Hcall] by eauto.
  - assert (∃ r, runAgent backend call = r) as [[[]|e] Hrun] by eauto.
    + unfold handleStepAction, runStep.
      rewrite Hcall. step_eff. rewrite Hrun. step_eff.
      match goal with
      | |- context [waitLoop backend loopFuel cp projectId stepId ?wb false 0 ?W] =>
          destruct (waitLoop_total backend cp projectId stepId wb
                      30 loopFuel 0 W) as (c & wl & -> & _);
            [done|apply loopFuel_enough|]
      end.
      destruct c; cbn; eexists; (split; [reflexivity|done]).
    + unfold handleStepAction, runStep.
      rewrite Hcall. step_eff. rewrite Hrun. step_eff.
      eexists; (split; [reflexivity|done]).
  - unfold handleStepAction, runStep.
    rewrite Hcall. step_eff.
    eexists; (split; [reflexivity|done]).
Qed.

(** C4: when the request was accepted and none of the 30 polls shows the
    step completed, [handleStepAction] returns after 30 polls and 300000 ms,
    every step of that name of the project is in [error], in the list of
    projects and in [currentProject], the last chat message reports the
    time-out, and the running and processing flags are off. *)
Theorem handleStepAction_timeout_marks_error
    (action : Action) (call : ApiCall) (w : World) :
  agentCall projectId stepId
    (or_else (Project.workspace currentProject) (str "workspace/" ++ projectId))
    (Project.description currentProject) = Some call →
  runAgent backend call = Resolved tt →
  (∀ k, (polls w ≤ k < polls w + 30)%nat → seen k ≠ SeesCompleted) →
  ∃ w',
    handleStepAction backend (Some currentProject) projectId stepId action w
    = (Normal tt, w')
    ∧ polls w' = (polls w + 30)%nat
    ∧ clock w' = clock w + 300000
    ∧ stepStatuses (Project.id currentProject) stepId (store w')
      = map (λ _, StepStatus.error)
            (stepStatuses (Project.id currentProject) stepId (store w))
    ∧ currentStepStatuses (Project.id currentProject) stepId (store w')
      = map (λ _, StepStatus.error)
            (currentStepStatuses (Project.id currentProject) stepId (store w))
    ∧ lastMessage (store w')
      = Some (str "Error in " ++ stepId ++ str " phase: "
              ++ cleanUnicodeText (stepId ++ str " timed out after 5 minutes"))
    ∧ isRunning w' = false
    ∧ isProcessing (store w') = false.
Proof.
  intros Hcall Hrun Hnone.
  unfold handleStepAction, runStep.
  rewrite Hcall. destruct w as [st0 run0 con0 clock0 polls0 uuids0 requests0].
  step_eff. rewrite Hrun. step_eff.
  match goal with
  | |- context [waitLoop backend loopFuel currentProject projectId stepId ?wb
                         false 0 ?W] =>
      destruct (waitLoop_timeout wb W Hnone)
        as (wl & -> & Hst & _ & _ & _ & Hpolls & Hclock)
  end.
  destruct wl as [st1 run1 con1 clock1 polls1 uuids1 requests1].
  cbn [store polls clock] in Hst, Hpolls, Hclock. subst st1 polls1 clock1.
  step_eff. eexists. split; [reflexivity|].
  cbn [store polls clock isRunning].
  split; [done|]. split; [lia|].
  split; [|split; [|split; [|done]]].
  - observe_store.
    rewrite (stepStatuses_updateProjectStep _ _ _ StepStatus.error) by done.
    observe_store.
    rewrite (stepStatuses_updateProjectStep _ _ _ StepStatus.in_progress) by done.
    observe_store. apply map_const_twice.
  - observe_store.
    rewrite (currentStepStatuses_updateProjectStep _ _ _ StepStatus.error) by done.
    observe_store.
    rewrite (currentStepStatuses_updateProjectStep _ _ _ StepStatus.in_progress)
      by done.
    observe_store. apply map_const_twice.
  - by rewrite lastMessage_setProcessing, lastMessage_addMessage.
Qed.

End StepDriver.

Lemma handleStepAction_timeout_marks_error_witness :
  ∃ w',
    handleStepAction stuckBackend (Some demoProject) (str "id-1") (str "analysis")
                     run demoWorld
    = (Normal tt, w')
    ∧ polls w' = 30%nat
    ∧ clock w' = 300000
    ∧ stepStatuses (str "id-1") (str "analysis") (store w') = [StepStatus.error]
    ∧ isRunning w' = false
    ∧ isProcessing (store w') = false.
Proof.
  destruct (handleStepAction_timeout_marks_error
              stuckBackend demoProject (str "id-1") (str "analysis") run
              (runAnalysisAgent (str "id-1") (str "a demo")) demoWorld)
    as (w' & Hret & Hpolls & Hclock & Hsteps & _ & _ & Hrun & Hproc).
  - vm_compute. reflexivity.
  - reflexivity.
  - intros k _. vm_compute. discriminate.
  - exists w'. repeat split; assumption.
Defined.

(** C3 on the code: after a poll that reports the step in [error] the loop
    polls again. With a back end that reports the failure [boom] at every
    poll, the driver polls 30 times and what it records is the time-out, not
    [boom]; with one that reports completion after the failure, the step ends
    [completed]. *)
Lemma handleStepAction_error_report_keeps_polling :
  let failed :=
    handleStepAction failedBackend (Some demoProject) (str "id-1")
                     (str "analysis") run demoWorld in
  let recovered :=
    handleStepAction failedThenCompletedBackend (Some demoProject) (str "id-1")
                     (str "analysis") run demoWorld in
  seen failedBackend (str "id-1") (str "analysis") 0 = SeesError
  ∧ polls failed.2 = 30%nat
  ∧ clock failed.2 = 300000
  ∧ stepStatuses (str "id-1") (str "analysis") (store failed.2)
    = [StepStatus.error]
  ∧ lastMessage (store failed.2)
    = Some (str "Error in analysis phase: analysis timed out after 5 minutes")
  ∧ seen failedThenCompletedBackend (str "id-1") (str "analysis") 0 = SeesError
  ∧ polls recovered.2 = 2%nat
  ∧ console recovered.2 = [str "Error polling project status: boom"]
  ∧ stepStatuses (str "id-1") (str "analysis") (store recovered.2)
    = [StepStatus.completed]
  ∧ lastMessage (store recovered.2)
    = Some (str "analysis phase completed successfully!").
Proof. repeat split; vm_compute; reflexivity. Qed.

(** C5 on the code: the status of a project does not follow its steps.
    On a freshly created project, the first thing a run does is to mark the
    step [in_progress]: the stored status stays [draft], where the status
    derived from the steps is [processing]. A run whose job never finishes
    leaves the step in [error] and the stored status [draft], where the
    derived status is [error]. When the four steps are run one after the
    other against a back end that reports every job done, all four end
    [completed] and the progress is 100, but the stored status, in the list
    and in [currentProject], is still [draft] where the derived status is
    [completed]; the page shows its archive panel for the status [completed]
    only, and so does not show it. *)
Lemma project_status_stays_draft_through_runs :
  let started :=
    Store.updateProjectStep (str "id-1") (str "analysis") markInProgress 0
                            (store demoWorld) in
  let timedOut := clickRun stuckBackend (str "id-1") (str "analysis") demoWorld in
  let finished :=
    foldl (λ w stepId, clickRun allCompletedBackend (str "id-1") stepId w)
          demoWorld
          [str "analysis"; str "architecture"; str "planning"; str "optimization"] in
  forallb spec_statusIsDerived (projects (store demoWorld)) = true
  ∧ map (λ p, map ProjectStep.status (Project.steps p)) (projects started)
    = [[StepStatus.in_progress; StepStatus.pending; StepStatus.pending;
        StepStatus.pending]]
  ∧ map Project.status (projects started) = [ProjectStatus.draft]
  ∧ map spec_derivedStatus (projects started) = [ProjectStatus.processing]
  ∧ map (λ p, map ProjectStep.status (Project.steps p)) (projects (store timedOut))
    = [[StepStatus.error; StepStatus.pending; StepStatus.pending;
        StepStatus.pending]]
  ∧ map Project.status (projects (store timedOut)) = [ProjectStatus.draft]
  ∧ map spec_derivedStatus (projects (store timedOut)) = [ProjectStatus.error]
  ∧ map (λ p, map ProjectStep.status (Project.steps p)) (projects (store finished))
    = [[StepStatus.completed; StepStatus.completed; StepStatus.completed;
        StepStatus.completed]]
  ∧ map Project.status (projects (store finished)) = [ProjectStatus.draft]
  ∧ Project.status <$> currentProject (store finished) = Some ProjectStatus.draft
  ∧ map spec_derivedStatus (projects (store finished)) = [ProjectStatus.completed]
  ∧ forallb spec_statusIsDerived (projects (store finished)) = false
  ∧ overallProgressIs100 <$> currentProject (store finished) = Some true
  ∧ archivePanelShown (currentProject (store finished)) = false.
Proof. repeat split; vm_compute; reflexivity. Qed.

(** * Further properties of the code *)

(** ** Text helpers *)

Section TextHelpers.

Lemma removeEmojiSurrogatePairs_sublist (s : jsstring) :
  removeEmojiSurrogatePairs s `sublist_of` s.
Proof.
  assert (∀ n (t : jsstring), (length t ≤ n)%nat →
            removeEmojiSurrogatePairs t `sublist_of` t) as H.
  { induction n as [|n IH]; intros t Hlen.
    - destruct t; [constructor|simpl in Hlen; lia].
    - destruct t as [|h [|l rest]]; [constructor|reflexivity|].
      change (removeEmojiSurrogatePairs (h :: l :: rest))
        with (if isHighEmojiSurrogate h && isLowSurrogate l
              then removeEmojiSurrogatePairs rest
              else h :: removeEmojiSurrogatePairs (l :: rest)).
      simpl in Hlen. destruct (isHighEmojiSurrogate h && isLowSurrogate l).
      + do 2 apply sublist_cons. apply IH. lia.
      + apply sublist_skip. apply IH. simpl. lia. }
  by apply (H (length s)).
Qed.

Lemma removeClass_sublist (lo hi : Z) (s : jsstring) :
  removeClass lo hi s `sublist_of` s.
Proof. unfold removeClass. apply sublist_filter. Qed.

(** [cleanUnicodeText] only deletes: its result is the input with some code
    units left out, in the same order, so it is never longer than the
    input. *)
Theorem cleanUnicodeText_only_deletes (text : jsstring) :
  cleanUnicodeText text `sublist_of` text
  ∧ (length (cleanUnicodeText text) ≤ length text)%nat.
Proof.
  assert (cleanUnicodeText text `sublist_of` text) as H.
  { unfold cleanUnicodeText. destruct (falsy text); [reflexivity|].
    unfold removeZeroWidthJoiner, removeVariationSelectors, removeDingbats,
      removeMiscSymbols.
    repeat (etrans; [apply removeClass_sublist|]).
    apply removeEmojiSurrogatePairs_sublist. }
  split; [done|]. by apply sublist_length.
Qed.

Lemma cleanUnicodeText_no_high (text : jsstring) :
  Forall (λ c, isHighEmojiSurrogate c = false) text →
  cleanUnicodeText text
  = removeZeroWidthJoiner
      (removeVariationSelectors (removeDingbats (removeMiscSymbols text))).
Proof.
  intros Hhigh. unfold cleanUnicodeText.
  destruct text as [|c text]; [done|]. cbn [falsy].
  by rewrite (removeEmojiSurrogatePairs_no_high (c :: text)).
Qed.

(** On text without a code unit in U+D83C..U+DBFF (no high surrogate of the
    emoji planes) [cleanUnicodeText] is stable: cleaning the cleaned text
    changes nothing. *)
Theorem cleanUnicodeText_idempotent_without_surrogates (text : jsstring) :
  Forall (λ c, isHighEmojiSurrogate c = false) text →
  cleanUnicodeText (cleanUnicodeText text) = cleanUnicodeText text.
Proof.
  intros Hhigh. rewrite (cleanUnicodeText_no_high text) by done.
  rewrite cleanUnicodeText_no_high.
  2:{ unfold removeZeroWidthJoiner, removeVariationSelectors, removeDingbats,
        removeMiscSymbols. by do 4 apply removeClass_keeps. }
  unfold removeZeroWidthJoiner, removeVariationSelectors, removeDingbats,
    removeMiscSymbols.
  rewrite (removeClass_outside 0x2600 0x26FF (removeClass _ _ _))
    by (do 3 apply removeClass_keeps; apply removeClass_clears).
  rewrite (removeClass_outside 0x2700 0x27BF (removeClass _ _ _))
    by (do 2 apply removeClass_keeps; apply removeClass_clears).
  rewrite (removeClass_outside 0xFE00 0xFE0F (removeClass _ _ _))
    by (apply removeClass_keeps, removeClass_clears).
  apply removeClass_outside, removeClass_clears.
Qed.

Lemma cleanUnicodeText_idempotent_without_surrogates_witness :
  cleanUnicodeText (cleanUnicodeText [0x61; 0x2764; 0xFE0F; 0x200D; 0x4E2D])
  = cleanUnicodeText [0x61; 0x2764; 0xFE0F; 0x200D; 0x4E2D].
Proof.
  apply cleanUnicodeText_idempotent_without_surrogates.
  repeat (apply Forall_cons; split; [reflexivity|]). apply Forall_nil_2.
Defined.

(** *** [truncateText] *)

(** A text within the limit is returned as it is. A longer one is cut to its
    first [maxLength] code units (none for a negative limit) followed by three
    dots, so the result is 3 longer than the limit. *)
Theorem truncateText_length (text : jsstring) (maxLength : Z) :
  (Z.of_nat (length text) ≤ maxLength → truncateText text maxLength = text)
  ∧ (maxLength < Z.of_nat (length text) →
     truncateText text maxLength
     = take (Z.to_nat maxLength) text ++ str "..."
     ∧ Z.of_nat (length (truncateText text maxLength)) = Z.max 0 maxLength + 3).
Proof.
  unfold truncateText, substring0. split; intros H.
  - by rewrite (proj2 (Z.leb_le _ _) H).
  - rewrite (proj2 (Z.leb_gt _ _) H). split; [done|].
    rewrite length_app, length_take. change (length (str "...")) with 3%nat. lia.
Qed.

Lemma truncateText_length_witness :
  truncateText (str "requirements") 20 = str "requirements"
  ∧ truncateText (str "requirements") 7 = take 7 (str "requirements") ++ str "..."
  ∧ Z.of_nat (length (truncateText (str "abcd") 3)) = Z.max 0 3 + 3.
Proof.
  split; [|split].
  - apply (proj1 (truncateText_length (str "requirements") 20)). vm_compute. discriminate.
  - apply (proj2 (truncateText_length (str "requirements") 7)). reflexivity.
  - apply (proj2 (truncateText_length (str "abcd") 3)). reflexivity.
Defined.

(** *** [getFileExtension] *)

(** A code unit does not occur in a string given by a literal. *)
Ltac absent_from_literal :=
  match goal with
  | |- _ ∉ ?l => let l' := eval vm_compute in l in change l with l'
  end;
  let H := fresh in
  intros H;
  repeat (apply elem_of_cons in H as [H|H]; [discriminate H|]);
  by apply elem_of_nil in H.

Lemma lastIndexFrom_absent (c i : Z) (s : jsstring) :
  c ∉ s → lastIndexFrom c i s = -1.
Proof.
  revert i. induction s as [|x s IH]; intros i Hc; [done|].
  apply not_elem_of_cons in Hc as [Hx Hs]. cbn [lastIndexFrom].
  rewrite (IH (i + 1) Hs). cbn.
  by rewrite (proj2 (Z.eqb_neq x c)) by congruence.
Qed.

Lemma lastIndexFrom_last (c i : Z) (prefix rest : jsstring) :
  0 ≤ i → c ∉ rest →
  lastIndexFrom c i (prefix ++ c :: rest) = i + Z.of_nat (length prefix).
Proof.
  revert i. induction prefix as [|x prefix IH]; intros i Hi Hc.
  - cbn [app lastIndexFrom length]. rewrite lastIndexFrom_absent by done.
    cbn. rewrite Z.eqb_refl. lia.
  - cbn [app lastIndexFrom length]. rewrite IH by (done || lia).
    rewrite (proj2 (Z.leb_le 0 _)) by lia. lia.
Qed.

(** A name with a dot that is not its first character has the text after
    its last dot as extension. *)
Theorem getFileExtension_after_last_dot (prefix extension : jsstring) :
  prefix ≠ [] →
  0x2E ∉ extension →
  Z.of_nat (length prefix) < 2 ^ 32 →
  getFileExtension (prefix ++ 0x2E :: extension) = extension.
Proof.
  intros Hne Hdot Hlen. unfold getFileExtension, lastIndexOf, sliceFrom, toUint32.
  rewrite lastIndexFrom_last by done.
  assert (0 < Z.of_nat (length prefix)) by (destruct prefix; [done|simpl; lia]).
  rewrite Z.mod_small by lia.
  rewrite (proj2 (Z.ltb_ge _ 0)) by lia.
  replace (Z.to_nat (0 + Z.of_nat (length prefix) - 1 + 2))
    with (length (prefix ++ [0x2E])) by (rewrite length_app; simpl; lia).
  replace (prefix ++ 0x2E :: extension) with ((prefix ++ [0x2E]) ++ extension)
    by (by rewrite <- app_assoc).
  apply drop_app_length.
Qed.

Lemma getFileExtension_after_last_dot_witness :
  getFileExtension (str "notes.final" ++ 0x2E :: str "md") = str "md".
Proof.
  apply (getFileExtension_after_last_dot (str "notes.final") (str "md")).
  - discriminate.
  - absent_from_literal.
  - reflexivity.
Defined.

(** A name without a dot, and a name whose only dot is its first character
    (a hidden file), have the empty extension: the unsigned shift turns the
    index -1 or 0 into a start beyond the end of the name. *)
Theorem getFileExtension_none (name : jsstring) :
  0x2E ∉ name →
  Z.of_nat (length name) < 2 ^ 32 →
  getFileExtension name = [] ∧ getFileExtension (0x2E :: name) = [].
Proof.
  intros Hdot Hlen. unfold getFileExtension, lastIndexOf, sliceFrom, toUint32.
  split.
  - rewrite lastIndexFrom_absent by done.
    change ((-1 - 1) mod 2 ^ 32 + 2) with (2 ^ 32).
    rewrite (proj2 (Z.ltb_ge _ 0)) by lia. apply drop_ge. lia.
  - assert (lastIndexFrom 0x2E 0 (0x2E :: name) = 0) as ->
      by (by apply (lastIndexFrom_last 0x2E 0 [] name)).
    change ((0 - 1) mod 2 ^ 32 + 2) with (2 ^ 32 + 1).
    rewrite (proj2 (Z.ltb_ge _ 0)) by lia. apply drop_ge.
    cbn [length app]. lia.
Qed.

Lemma getFileExtension_none_witness :
  getFileExtension (str "Makefile") = []
  ∧ getFileExtension (0x2E :: str "Makefile") = [].
Proof.
  apply getFileExtension_none.
  - absent_from_literal.
  - reflexivity.
Defined.

End TextHelpers.

(** ** Store actions *)

Section StoreActions.

Lemma lookup_map {A B : Type} (f : A → B) (l : list A) (i : nat) :
  map f l !! i = f <$> (l !! i).
Proof.
  revert i. induction l as [|x l IH]; intros [|i]; try done. apply IH.
Qed.

Lemma elem_of_bool_filter {A : Type} (f : A → bool) (l : list A) (x : A) :
  x ∈ List.filter f l ↔ x ∈ l ∧ f x = true.
Proof. rewrite !list_elem_of_In. apply filter_In. Qed.

(** [deleteProject] removes every project with the identifier and nothing
    else: the remaining projects are those with another identifier, in the
    order they had, and [currentProject] is cleared exactly when it had the
    identifier. *)
Theorem deleteProject_removes_id (id : jsstring) (st : AppState) :
  (∀ p, p ∈ projects (deleteProject id st) ↔ p ∈ projects st ∧ Project.id p ≠ id)
  ∧ projects (deleteProject id st) `sublist_of` projects st
  ∧ currentProject (deleteProject id st)
    = match currentProject st with
      | Some p => if bool_decide (Project.id p = id) then None else Some p
      | None => None
      end.
Proof.
  split; [|split].
  - intros p. unfold deleteProject. cbn. rewrite elem_of_bool_filter.
    unfold hasId. rewrite negb_true_iff, bool_decide_eq_false. done.
  - apply filter_sublist.
  - unfold deleteProject, onCurrent, hasId. cbn.
    by destruct (currentProject st).
Qed.

(** [updateProjectStep] changes nothing but the steps named [stepId] of the
    projects named [projectId] (and the time stamp of those projects): the
    list keeps its length, a project with another identifier is untouched,
    and in a project with the identifier every step with another name stays
    where and as it was. *)
Theorem updateProjectStep_frame (projectId stepId : jsstring)
    (updates : StepUpdates.t) (now : Date) (st : AppState) :
  let st' := Store.updateProjectStep projectId stepId updates now st in
  length (projects st') = length (projects st)
  ∧ ∀ i p, projects st !! i = Some p →
      ∃ p', projects st' !! i = Some p'
        ∧ (Project.id p ≠ projectId → p' = p)
        ∧ Project.id p' = Project.id p
        ∧ Project.name p' = Project.name p
        ∧ Project.status p' = Project.status p
        ∧ Project.workspace p' = Project.workspace p
        ∧ length (Project.steps p') = length (Project.steps p)
        ∧ ∀ j s, Project.steps p !! j = Some s →
            ProjectStep.id s ≠ stepId → Project.steps p' !! j = Some s.
Proof.
  intros st'. unfold st', Store.updateProjectStep. cbn. split; [apply length_map|].
  intros i p Hp. rewrite lookup_map, Hp. cbn. eexists. split; [reflexivity|].
  unfold hasId. case_bool_decide as Hid.
  - split; [done|]. cbn. repeat (split; [done|]).
    split; [apply length_map|]. intros j s Hs Hne.
    unfold updateSteps. rewrite lookup_map, Hs. cbn.
    unfold stepHasId. by rewrite bool_decide_eq_false_2.
  - repeat (split; [done|]). done.
Qed.

Lemma updateProjectStep_frame_witness :
  let st := stateAfter
    [CreateProject (str "one") (str "first") (str "id-1") 0;
     CreateProject (str "two") (str "second") (str "id-2") 1] in
  let st' := Store.updateProjectStep (str "id-2") (str "planning") Page.markError 9 st in
  ∃ p', projects st' !! 0%nat = Some p'
        ∧ p' = newProject (str "one") (str "first") (str "id-1") 0.
Proof.
  intros st st'.
  destruct (proj2 (updateProjectStep_frame (str "id-2") (str "planning")
                     Page.markError 9 st)
              0%nat (newProject (str "one") (str "first") (str "id-1") 0))
    as (p' & Hp' & Hsame & _); [reflexivity|].
  exists p'. split; [exact Hp'|]. apply Hsame. vm_compute. discriminate.
Defined.

(** [duplicateProject] on an identifier of the list appends one project and
    touches nothing else. The copy has the drawn identifier and the new name,
    status [draft], the description of the original and its steps in the same
    order with the same names, each [pending] with no output and no file
    path. The copy also inherits [archivedAt] of the original. On an unknown
    identifier the state is returned as it is. *)
Theorem duplicateProject_copy `{!Engine} (id newName uuid : jsstring) (now : Date)
    (st : AppState) :
  match find (hasId id) (projects st) with
  | None => duplicateProject id newName uuid now st = st
  | Some original =>
      ∃ copy,
        projects (duplicateProject id newName uuid now st) = projects st ++ [copy]
        ∧ currentProject (duplicateProject id newName uuid now st) = currentProject st
        ∧ Project.id copy = uuid
        ∧ Project.name copy = newName
        ∧ Project.description copy = Project.description original
        ∧ Project.status copy = ProjectStatus.draft
        ∧ Project.archivedAt copy = Project.archivedAt original
        ∧ map ProjectStep.id (Project.steps copy)
          = map ProjectStep.id (Project.steps original)
        ∧ map ProjectStep.name (Project.steps copy)
          = map ProjectStep.name (Project.steps original)
        ∧ Forall (λ s, ProjectStep.status s = StepStatus.pending
                       ∧ ProjectStep.output s = None
                       ∧ ProjectStep.filePath s = None)
                 (Project.steps copy)
  end.
Proof.
  unfold duplicateProject. destruct (find (hasId id) (projects st)) as [original|];
    [|done].
  eexists. split; [reflexivity|]. cbn. repeat (split; [done|]).
  split; [|split].
  - induction (Project.steps original) as [|s l IH]; [done|]. cbn. by f_equal.
  - induction (Project.steps original) as [|s l IH]; [done|]. cbn. by f_equal.
  - induction (Project.steps original) as [|s l IH]; [constructor|].
    cbn. by constructor.
Qed.

(** *** Loading the workspace projects *)

Lemma bool_filter_nil {A : Type} (f : A → bool) (l : list A) :
  (∀ x, x ∈ l → f x = false) → List.filter f l = [].
Proof.
  induction l as [|x l IH]; intros H; [done|]. cbn.
  rewrite (H x) by apply list_elem_of_here.
  apply IH. intros y Hy. apply H. by apply list_elem_of_further.
Qed.

Lemma bool_filter_sublist {A : Type} (f : A → bool) (l : list A) :
  List.filter f l `sublist_of` l.
Proof.
  induction l as [|x l IH]; cbn; [constructor|].
  destruct (f x); by constructor.
Qed.

Lemma elem_of_map {A B : Type} (f : A → B) (l : list A) (y : B) :
  y ∈ map f l ↔ ∃ x, y = f x ∧ x ∈ l.
Proof.
  rewrite list_elem_of_In, in_map_iff. split.
  - intros (x & <- & Hx). exists x. by rewrite list_elem_of_In.
  - intros (x & -> & Hx). exists x. by rewrite <- list_elem_of_In.
Qed.

(** [loadWorkspaceProjects] keeps the projects of the list and appends some
    of the scanned ones, none of which has an identifier the list already
    held; loading the same scan again adds nothing. *)
Theorem loadWorkspaceProjects_idempotent (convertedProjects : list Project.t)
    (st : AppState) :
  (∃ added,
     projects (loadWorkspaceProjects convertedProjects st) = projects st ++ added
     ∧ added `sublist_of` convertedProjects
     ∧ ∀ p, p ∈ added → Project.id p ∉ map Project.id (projects st))
  ∧ loadWorkspaceProjects convertedProjects
      (loadWorkspaceProjects convertedProjects st)
    = loadWorkspaceProjects convertedProjects st.
Proof.
  split.
  - eexists. split; [reflexivity|]. split; [apply bool_filter_sublist|].
    intros p Hp. apply elem_of_bool_filter in Hp as [_ Hp].
    apply andb_true_iff in Hp as [_ Hp].
    apply negb_true_iff, bool_decide_eq_false in Hp.
    by rewrite elem_of_list_to_set in Hp.
  - unfold loadWorkspaceProjects at 1. cbn [projects].
    set (st1 := loadWorkspaceProjects convertedProjects st).
    rewrite bool_filter_nil.
    { rewrite app_nil_r. by destruct st1. }
    intros p Hp. apply andb_false_iff.
    set (keep := λ project : Project.t,
           negb (bool_decide
                   (Project.workspace project
                    ∈ (list_to_set
                         (map Project.workspace
                              (List.filter isWorkspaceProject (projects st)))
                       : gset jsstring)))
           && negb (bool_decide
                      (Project.id project
                       ∈ (list_to_set (map Project.id (projects st))
                          : gset jsstring)))).
    assert (projects st1 = projects st ++ List.filter keep convertedProjects)
      as Hst1 by reflexivity.
    destruct (keep p) eqn:Hkeep.
    + right. apply negb_false_iff, bool_decide_eq_true.
      rewrite elem_of_list_to_set, Hst1, map_app, elem_of_app. right.
      apply elem_of_map. exists p. split; [done|].
      by apply elem_of_bool_filter.
    + unfold keep in Hkeep. apply andb_false_iff in Hkeep as [Hw|Hi].
      * left. apply negb_false_iff, bool_decide_eq_true in Hw.
        apply negb_false_iff, bool_decide_eq_true.
        rewrite elem_of_list_to_set in Hw |- *.
        rewrite Hst1, List.filter_app, map_app, elem_of_app. by left.
      * right. apply negb_false_iff, bool_decide_eq_true in Hi.
        apply negb_false_iff, bool_decide_eq_true.
        rewrite elem_of_list_to_set in Hi |- *.
        rewrite Hst1, map_app, elem_of_app. by left.
Qed.

(** *** Adding a project *)

(** [addProject] keeps the identifiers of the list distinct, and adding the
    same project a second time changes nothing. *)
Theorem addProject_keeps_ids_distinct (project : Project.t) (st : AppState) :
  (NoDup (map Project.id (projects st)) →
   NoDup (map Project.id (projects (addProject project st))))
  ∧ addProject project (addProject project st) = addProject project st.
Proof.
  split.
  - intros Hnd. unfold addProject.
    destruct (find (hasId (Project.id project)) (projects st)) eqn:Hfind; [done|].
    cbn. rewrite map_app. apply NoDup_app. split; [done|]. split.
    + intros i Hi Hin. apply list_elem_of_singleton in Hin. subst i.
      apply elem_of_map in Hi as (q & Hq & Hin).
      apply list_elem_of_In in Hin.
      pose proof (find_none _ _ Hfind q Hin) as Hno.
      unfold hasId in Hno. by apply bool_decide_eq_false in Hno.
    + apply NoDup_singleton.
  - unfold addProject at 2.
    destruct (find (hasId (Project.id project)) (projects st)) eqn:Hfind.
    + unfold addProject. by rewrite Hfind.
    + unfold addProject. cbn [projects set_projects].
      destruct (find_hasId_Some (Project.id project) (projects st ++ [project]))
        as [q Hq].
      { exists project. split; [|done]. apply elem_of_app. right.
        apply list_elem_of_here. }
      by rewrite Hq, Hfind.
Qed.

Lemma addProject_keeps_ids_distinct_witness :
  let st := stateAfter [CreateProject (str "one") (str "first") (str "id-1") 0] in
  let q := newProject (str "two") (str "second") (str "id-2") 3 in
  NoDup (map Project.id (projects (addProject q st))).
Proof.
  intros st q. apply (proj1 (addProject_keeps_ids_distinct q st)).
  vm_compute. apply NoDup_singleton.
Defined.

(** *** The editor state *)

(** [openFile] and [closeFile] keep the open files listed once each and the
    active file among them. After [openFile] the file is the active one;
    after [closeFile] it is neither open nor active and its content is
    forgotten. *)
Theorem editor_actions_consistent (filePath : jsstring) (st : AppState) :
  editorConsistent st →
  editorConsistent (openFile filePath st)
  ∧ activeFile (openFile filePath st) = Some filePath
  ∧ editorConsistent (closeFile filePath st)
  ∧ (filePath ∉ openFiles (closeFile filePath st))
  ∧ activeFile (closeFile filePath st) ≠ Some filePath
  ∧ fileContents (closeFile filePath st) !! filePath = None.
Proof.
  intros [Hnd Hact].
  assert (∀ g, (g ∈ List.filter (λ f, negb (bool_decide (f = filePath)))
                                (openFiles st))
               ↔ (g ∈ openFiles st ∧ g ≠ filePath)) as Hfilter.
  { intros g. rewrite elem_of_bool_filter, negb_true_iff, bool_decide_eq_false.
    done. }
  split; [|split; [done|split; [|split; [|split]]]].
  - unfold openFile. split; cbn.
    + case_bool_decide as Hin; [done|].
      apply NoDup_app. split; [done|]. split; [|apply NoDup_singleton].
      intros g Hg Hg'. apply list_elem_of_singleton in Hg'. by subst g.
    + intros f [= <-]. case_bool_decide as Hin; [done|].
      apply elem_of_app. right. apply list_elem_of_here.
  - unfold closeFile. split; cbn.
    + eapply sublist_NoDup; [exact Hnd|apply bool_filter_sublist].
    + intros g. case_bool_decide as Hwas.
      * destruct (last _) as [h|] eqn:Hlast; [|done].
        destruct (falsy h); [done|]. intros [= <-].
        by apply last_Some_elem_of.
      * intros Hg. apply Hfilter. split; [by apply Hact|].
        intros ->. by destruct Hwas.
  - unfold closeFile. cbn. rewrite Hfilter. tauto.
  - unfold closeFile. cbn. case_bool_decide as Hwas.
    + destruct (last _) as [h|] eqn:Hlast; [|done].
      destruct (falsy h); [done|]. intros [= ->].
      apply last_Some_elem_of, Hfilter in Hlast. tauto.
    + done.
  - unfold closeFile. cbn. apply lookup_delete_eq.
Qed.

Lemma editor_actions_consistent_witness :
  let st := openFile (str "b.md") (openFile (str "a.md") initialState) in
  editorConsistent (closeFile (str "b.md") st)
  ∧ activeFile (closeFile (str "b.md") st) = Some (str "a.md").
Proof.
  intros st. split; [|reflexivity].
  apply (editor_actions_consistent (str "b.md") st).
  split.
  - vm_compute. apply NoDup_cons. split; [|apply NoDup_singleton].
    intros H. apply list_elem_of_singleton in H. discriminate H.
  - intros f Hf. vm_compute in Hf. injection Hf as <-.
    vm_compute. apply list_elem_of_further, list_elem_of_here.
Defined.

(** *** [currentProject] and the list *)

Lemma find_app_cases {A : Type} (f : A → bool) (l k : list A) :
  find f (l ++ k) = match find f l with Some x => Some x | None => find f k end.
Proof. induction l as [|x l IH]; [done|]. cbn. by destruct (f x). Qed.

Lemma find_hasId_map (k : jsstring) (F : Project.t → Project.t)
    (l : list Project.t) :
  (∀ p, Project.id (F p) = Project.id p) →
  find (hasId k) (map F l) = F <$> find (hasId k) l.
Proof.
  intros HF. induction l as [|p l IH]; [done|]. cbn.
  unfold hasId at 1 3. rewrite HF. by case_bool_decide.
Qed.

Lemma find_bool_filter {A : Type} (f g : A → bool) (l : list A) :
  (∀ x, f x = true → g x = true) →
  find f (List.filter g l) = find f l.
Proof.
  intros Hfg. induction l as [|x l IH]; [done|]. cbn.
  destruct (g x) eqn:Hg; cbn.
  - by destruct (f x).
  - destruct (f x) eqn:Hf; [|done]. rewrite (Hfg x Hf) in Hg. done.
Qed.

Lemma mirror_after_map (projectId : jsstring) (F : Project.t → Project.t)
    (st : AppState) :
  (∀ p, Project.id (F p) = Project.id p) →
  currentMirrorsList st →
  currentMirrorsList
    (set_currentProject
       (onCurrent projectId (λ p, Some (F p)) (currentProject st))
       (set_projects
          (map (λ p, if hasId projectId p then F p else p) (projects st)) st)).
Proof.
  intros HF Hst q Hq. cbn in *.
  set (G := λ p, if hasId projectId p then F p else p).
  assert (∀ p, Project.id (G p) = Project.id p) as HG.
  { intros p. unfold G. by destruct (hasId projectId p). }
  destruct (currentProject st) as [p|] eqn:Hcur; [|done]. cbn in Hq.
  assert (q = G p) as ->.
  { unfold G. destruct (hasId projectId p); congruence. }
  rewrite find_hasId_map, HG by done. by rewrite (Hst p).
Qed.

(** The store actions keep [currentProject] equal to the entry of the list
    with its identifier: this holds for every action, given a fresh
    identifier for [createProject], no [id] key for [updateProject] and a
    project of the list for [setCurrentProject]. In particular
    [updateProjectStep] always changes both copies alike. *)
Theorem actions_keep_current_mirrored `{!Engine} (a : StoreAction) (st : AppState) :
  currentMirrorsList st → mirrorSafe a st → currentMirrorsList (perform a st).
Proof.
  intros Hst Hsafe. destruct a; cbn in Hsafe |- *; try exact Hst.
  - intros q [= <-]. cbn. rewrite find_app_cases.
    destruct (find (hasId uuid) (projects st)) as [r|] eqn:Hfind.
    + apply find_some in Hfind as [Hin Hr]. destruct Hsafe.
      apply elem_of_map. exists r. unfold hasId in Hr.
      apply bool_decide_eq_true in Hr. split; [done|]. by apply list_elem_of_In.
    + cbn. unfold hasId. by rewrite bool_decide_eq_true_2.
  - unfold addProject. destruct (find _ _); [exact Hst|].
    intros q Hq. cbn in *. rewrite find_app_cases. by rewrite (Hst q Hq).
  - apply mirror_after_map; [|done]. intros p. cbn. by rewrite Hsafe.
  - intros q Hq. unfold deleteProject in *. cbn in *.
    destruct (currentProject st) as [p|] eqn:Hcur; [|done]. cbn in Hq.
    destruct (hasId id p) eqn:Hp; [done|]. injection Hq as <-.
    rewrite find_bool_filter; [by apply Hst|].
    intros x Hx. unfold hasId in *.
    apply bool_decide_eq_true in Hx. apply bool_decide_eq_false in Hp.
    apply negb_true_iff, bool_decide_eq_false. congruence.
  - unfold duplicateProject. destruct (find _ _); [|exact Hst].
    intros q Hq. cbn in *. rewrite find_app_cases. by rewrite (Hst q Hq).
  - destruct project as [p|]; [|done]. intros q [= <-]. exact Hsafe.
  - intros q Hq. unfold loadWorkspaceProjects in *. cbn in *.
    rewrite find_app_cases. by rewrite (Hst q Hq).
  - by apply mirror_after_map.
  - by apply mirror_after_map.
Qed.

Lemma actions_keep_current_mirrored_witness :
  currentMirrorsList
    (perform (UpdateProjectStep (str "id-1") (str "analysis") Page.markInProgress 4)
       (stateAfter [CreateProject (str "demo") (str "a demo") (str "id-1") 0])).
Proof.
  apply actions_keep_current_mirrored; [|exact I].
  intros p Hp. vm_compute in Hp. injection Hp as <-. vm_compute. reflexivity.
Defined.

End StoreActions.

(** ** The step cards *)

Section StepCards.
Import WorkflowSteps.

(** Toggling a step flips whether it is expanded and leaves every other step
    as it was; toggling a collapsed step twice gives the list back. *)
Theorem toggleStepExpansion_flips (stepId : jsstring) (prev : list jsstring) :
  (stepId ∈ toggleStepExpansion stepId prev ↔ stepId ∉ prev)
  ∧ (∀ other, other ≠ stepId →
       (other ∈ toggleStepExpansion stepId prev ↔ other ∈ prev))
  ∧ (stepId ∉ prev →
     toggleStepExpansion stepId (toggleStepExpansion stepId prev) = prev).
Proof.
  assert (∀ g l, (g ∈ List.filter (λ id, negb (bool_decide (id = stepId))) l)
                 ↔ (g ∈ l ∧ g ≠ stepId)) as Hfilter.
  { intros g l. rewrite elem_of_bool_filter, negb_true_iff, bool_decide_eq_false.
    done. }
  destruct (decide (stepId ∈ prev)) as [Hin|Hin].
  - assert (toggleStepExpansion stepId prev
            = List.filter (λ id, negb (bool_decide (id = stepId))) prev) as ->
      by (unfold toggleStepExpansion; by rewrite bool_decide_eq_true_2).
    split; [|split].
    + rewrite Hfilter. tauto.
    + intros other Hne. rewrite Hfilter. tauto.
    + done.
  - assert (toggleStepExpansion stepId prev = prev ++ [stepId]) as ->
      by (unfold toggleStepExpansion; by rewrite bool_decide_eq_false_2).
    split; [|split].
    + rewrite elem_of_app, list_elem_of_singleton. tauto.
    + intros other Hne. rewrite elem_of_app, list_elem_of_singleton. tauto.
    + intros _. unfold toggleStepExpansion.
      rewrite bool_decide_eq_true_2
        by (apply elem_of_app; right; apply list_elem_of_here).
      rewrite List.filter_app. cbn.
      rewrite bool_decide_eq_true_2 by done. cbn. rewrite app_nil_r.
      clear -Hin. induction prev as [|x prev IH]; [done|].
      apply not_elem_of_cons in Hin as [Hx Hin]. cbn.
      rewrite bool_decide_eq_false_2 by congruence. cbn. by rewrite IH.
Qed.

Lemma toggleStepExpansion_flips_witness :
  toggleStepExpansion (str "planning")
    (toggleStepExpansion (str "planning") [str "analysis"])
  = [str "analysis"].
Proof.
  apply (proj2 (proj2 (toggleStepExpansion_flips (str "planning") [str "analysis"]))).
  intros H. apply list_elem_of_singleton in H. vm_compute in H. discriminate H.
Defined.

(** What a card offers depends on the status of its step: nothing for a step
    that is [in_progress] or in [error] (a failed step has no button to run it
    again), [regenerate] exactly for a [completed] step, [run] only for a
    [pending] step that [canRunStep] admits, [load] only beside [run], and
    never [edit]. *)
Theorem offeredActions_by_status (hasExistingWorkflow : bool)
    (steps : list ProjectStep.t) (step : ProjectStep.t) (index : nat)
    (actions : list StepAction) :
  offeredActions hasExistingWorkflow steps step index = Some actions →
  (ProjectStep.status step = StepStatus.in_progress
   ∨ ProjectStep.status step = StepStatus.error → actions = [])
  ∧ (regenerate ∈ actions ↔ ProjectStep.status step = StepStatus.completed)
  ∧ (run ∈ actions →
     ProjectStep.status step = StepStatus.pending
     ∧ canRunStep steps step index = Some true)
  ∧ (load ∈ actions → hasExistingWorkflow = true ∧ run ∈ actions)
  ∧ edit ∉ actions.
Proof.
  unfold offeredActions. destruct (canRunStep steps step index) as [canRun|];
    [|done].
  intros [= <-].
  destruct (ProjectStep.status step), canRun, hasExistingWorkflow;
    match goal with
    | |- context [?a ++ ?b] =>
        let r := eval vm_compute in (a ++ b) in change (a ++ b) with r
    end;
    rewrite ?elem_of_cons, ?elem_of_nil;
    intuition (try done; try discriminate).
Qed.

Lemma offeredActions_by_status_witness :
  let steps := stepsWith StepStatus.completed StepStatus.error
                         StepStatus.pending StepStatus.pending in
  let step := stepAt 1 steps in
  (ProjectStep.status step = StepStatus.in_progress
   ∨ ProjectStep.status step = StepStatus.error → ([] : list StepAction) = [])
  ∧ (regenerate ∈ ([] : list StepAction)
     ↔ ProjectStep.status step = StepStatus.completed)
  ∧ (run ∈ ([] : list StepAction) →
     ProjectStep.status step = StepStatus.pending
     ∧ canRunStep steps step 1 = Some true)
  ∧ (load ∈ ([] : list StepAction) → false = true ∧ run ∈ ([] : list StepAction))
  ∧ edit ∉ ([] : list StepAction).
Proof.
  intros steps step.
  apply (offeredActions_by_status false steps step 1 []). reflexivity.
Defined.

(** In a workflow that went from left to right (some steps [completed], the
    rest [pending]) the cards offer [regenerate] on the completed steps and
    [run] on the first pending step and on no other. *)
Theorem offeredActions_left_to_right (finished waiting : list ProjectStep.t)
    (step : ProjectStep.t) (index : nat) :
  Forall (λ s, ProjectStep.status s = StepStatus.completed) finished →
  Forall (λ s, ProjectStep.status s = StepStatus.pending) waiting →
  (finished ++ waiting) !! index = Some step →
  offeredActions false (finished ++ waiting) step index
  = Some (if bool_decide (index < length finished)%nat then [regenerate]
          else if bool_decide (index = length finished) then [run]
          else []).
Proof.
  intros Hfin Hwait Hstep. unfold offeredActions, canRunStep.
  destruct (decide (index < length finished)%nat) as [Hlt|Hge].
  - rewrite (bool_decide_eq_true_2 (index < length finished)%nat) by done.
    rewrite lookup_app_l in Hstep by done.
    rewrite Forall_lookup in Hfin. rewrite (Hfin _ _ Hstep).
    rewrite (bool_decide_eq_false_2 (_ = StepStatus.in_progress)) by discriminate.
    rewrite (bool_decide_eq_false_2 (_ = StepStatus.pending)) by discriminate.
    rewrite (bool_decide_eq_true_2 (StepStatus.completed = StepStatus.completed))
      by done.
    case_bool_decide as H0; [done|].
    destruct (lookup_lt_is_Some_2 (finished ++ waiting) (index - 1))
      as [previous ->]; [rewrite length_app; lia|]. done.
  - rewrite (bool_decide_eq_false_2 (index < length finished)%nat) by done.
    rewrite lookup_app_r in Hstep by lia.
    rewrite Forall_lookup in Hwait. rewrite (Hwait _ _ Hstep).
    rewrite (bool_decide_eq_false_2 (_ = StepStatus.in_progress)) by discriminate.
    rewrite (bool_decide_eq_true_2 (StepStatus.pending = StepStatus.pending))
      by done.
    rewrite (bool_decide_eq_false_2 (StepStatus.pending = StepStatus.completed))
      by discriminate.
    destruct (decide (index = 0%nat)) as [->|Hpos].
    + rewrite (bool_decide_eq_true_2 (0%nat = 0%nat)) by done.
      rewrite (bool_decide_eq_true_2 (0%nat = length finished)) by lia. done.
    + rewrite (bool_decide_eq_false_2 (index = 0%nat)) by done.
      destruct (decide (index = length finished)) as [Heq|Hne].
      * rewrite (bool_decide_eq_true_2 (index = length finished)) by done.
        rewrite lookup_app_l by lia.
        destruct (lookup_lt_is_Some_2 finished (index - 1)) as [previous Hprev];
          [lia|].
        rewrite Hprev. rewrite Forall_lookup in Hfin.
        rewrite (Hfin _ _ Hprev). by rewrite bool_decide_eq_true_2.
      * rewrite (bool_decide_eq_false_2 (index = length finished)) by done.
        rewrite lookup_app_r by lia.
        apply lookup_lt_Some in Hstep.
        destruct (lookup_lt_is_Some_2 waiting (index - 1 - length finished))
          as [previous Hprev]; [lia|].
        rewrite Hprev. rewrite (Hwait _ _ Hprev).
        by rewrite bool_decide_eq_false_2.
Qed.

Lemma offeredActions_left_to_right_witness :
  let steps := stepsWith StepStatus.completed StepStatus.completed
                         StepStatus.pending StepStatus.pending in
  offeredActions false (take 2 steps ++ drop 2 steps) (stepAt 2 steps) 2
  = Some (if bool_decide (2 < length (take 2 steps))%nat then [regenerate]
          else if bool_decide (2%nat = length (take 2 steps)) then [run]
          else []).
Proof.
  intros steps.
  apply (offeredActions_left_to_right (take 2 steps) (drop 2 steps)
           (stepAt 2 steps) 2).
  - vm_compute. repeat constructor.
  - vm_compute. repeat constructor.
  - reflexivity.
Defined.

End StepCards.

(** ** The step driver, further *)

Section DriverOutcomes.

Variable backend : Backend.
Variable currentProject : Project.t.
Variables projectId stepId : jsstring.

Local Abbreviation seen := (Page.seen backend projectId stepId).

(** The iteration that sees the step completed ends in [completedWorld]. *)
Lemma pollOnce_completed_world (workspaceBase : jsstring) (w : World) :
  seen (polls w) = SeesCompleted →
  ∃ steps step,
    getProject backend (polls w) projectId = Resolved steps
    ∧ find (λ s, bool_decide (ApiStep.id s = stepId)) steps = Some step
    ∧ pollOnce backend currentProject projectId stepId workspaceBase false w
      = (Normal true,
         completedWorld backend currentProject stepId workspaceBase step w).
Proof.
  unfold Page.seen, observe. intros Hobs.
  destruct (getProject backend (polls w) projectId) as [steps|e] eqn:Hget;
    [|done].
  destruct (find _ steps) as [step|] eqn:Hfind; [|done].
  exists steps, step. split; [done|]. split; [done|].
  destruct w as [st0 run0 con0 clock0 polls0 uuids0 requests0].
  cbn [polls] in Hget.
  unfold pollOnce, pollBody. step_eff. rewrite Hget. step_eff. rewrite Hfind.
  destruct (bool_decide (ApiStep.status step = str "completed")).
  - step_eff. reflexivity.
  - by destruct (bool_decide (ApiStep.status step = str "error")).
Qed.

(** The loop, when the poll number [k] (counted from 0) is the first that
    shows the step completed: [k] quiet iterations, then [completedWorld]. *)
Lemma waitLoop_first_completed (workspaceBase : jsstring) (k : nat) :
  ∀ (fuel : nat) (attempts : Z) (w : World),
    attempts + Z.of_nat k < 30 → (k < fuel)%nat →
    (∀ j, (j < k)%nat → seen (polls w + j) ≠ SeesCompleted) →
    seen (polls w + k) = SeesCompleted →
    ∃ wk step,
      waited k w wk
      ∧ (∃ steps,
           getProject backend (polls w + k) projectId = Resolved steps
           ∧ find (λ s, bool_decide (ApiStep.id s = stepId)) steps = Some step)
      ∧ waitLoop backend fuel currentProject projectId stepId workspaceBase
                 false attempts w
        = (Normal true,
           completedWorld backend currentProject stepId workspaceBase step wk).
Proof.
  induction k as [|k IH]; intros fuel attempts w Hatt Hfuel Hnone Hseen;
    (destruct fuel as [|fuel]; [lia|]); rewrite waitLoop_unfold by lia.
  - rewrite Nat.add_0_r in Hseen |- *.
    destruct (pollOnce_completed_world workspaceBase w Hseen)
      as (steps & step & Hget & Hfind & ->).
    rewrite waitLoop_completed. exists w, step.
    split; [unfold waited; repeat split; lia|]. split; [|done]. by exists steps.
  - destruct (pollOnce_quiet backend currentProject projectId stepId
                workspaceBase w) as (w1 & -> & Hw1).
    { specialize (Hnone 0%nat). rewrite Nat.add_0_r in Hnone. apply Hnone. lia. }
    destruct Hw1 as (Hst & Hrun & Huu & Hreq & Hpolls & Hclock).
    destruct (IH fuel (attempts + 1) w1) as (wk & step & Hwait & Hget & ->).
    + lia.
    + lia.
    + intros j Hj. rewrite Hpolls.
      replace (polls w + 1 + j)%nat with (polls w + S j)%nat by lia.
      apply Hnone. lia.
    + rewrite Hpolls. by replace (polls w + 1 + k)%nat with (polls w + S k)%nat by lia.
    + exists wk, step. split; [|split; [|done]].
      * destruct Hwait as (Hst' & Hrun' & Huu' & Hreq' & Hpolls' & Hclock').
        unfold waited. repeat split; try congruence; lia.
      * destruct Hget as (steps & Hget & Hfind). exists steps.
        rewrite Hpolls in Hget.
        by replace (polls w + S k)%nat with (polls w + 1 + k)%nat by lia.
Qed.

(** *** The stored output *)

Lemma outputs_updateSteps (updates : StepUpdates.t) (t : Date)
    (steps : list ProjectStep.t) :
  StepUpdates.id updates = None →
  map (λ s, (ProjectStep.output s, ProjectStep.filePath s))
      (List.filter (stepHasId stepId) (updateSteps stepId updates t steps))
  = map (λ o, (default o.1 (StepUpdates.output updates),
               default o.2 (StepUpdates.filePath updates)))
        (map (λ s, (ProjectStep.output s, ProjectStep.filePath s))
             (List.filter (stepHasId stepId) steps)).
Proof.
  intros Hid. unfold updateSteps.
  induction steps as [|s steps IH]; [done|]. cbn [map List.filter].
  destruct (stepHasId stepId s) eqn:Hs.
  - assert (stepHasId stepId (mergeStep s updates t) = true) as ->.
    { unfold stepHasId, mergeStep in *. cbn. by rewrite Hid. }
    cbn [map]. by rewrite IH.
  - by rewrite Hs.
Qed.

Lemma stepOutputs_updateProjectStep (id : jsstring) (updates : StepUpdates.t)
    (t : Date) (st : AppState) :
  StepUpdates.id updates = None →
  stepOutputs id stepId (Store.updateProjectStep id stepId updates t st)
  = map (λ o, (default o.1 (StepUpdates.output updates),
               default o.2 (StepUpdates.filePath updates)))
        (stepOutputs id stepId st).
Proof.
  intros Hid. unfold stepOutputs, Store.updateProjectStep. cbn.
  induction (projects st) as [|p l IH]; [done|]. cbn [map List.filter].
  destruct (hasId id p) eqn:Hp.
  - assert (hasId id (withUpdatedStep stepId updates t p) = true) as ->
      by exact Hp.
    cbn [flat_map]. rewrite map_app, IH. f_equal.
    cbn. by apply outputs_updateSteps.
  - by rewrite Hp.
Qed.

Lemma stepOutputs_addMessage id type content metadata uuid t st :
  stepOutputs id stepId (Store.addMessage type content metadata uuid t st)
  = stepOutputs id stepId st.
Proof. reflexivity. Qed.

Lemma stepOutputs_setProcessing id processing st :
  stepOutputs id stepId (Store.setProcessing processing st)
  = stepOutputs id stepId st.
Proof. reflexivity. Qed.

(** The whole of a successful run: the request is accepted and poll number
    [k] is the first that shows the step completed. *)
Lemma handleStepAction_success_full
    (action : Action) (call : ApiCall) (k : nat) (w : World) :
  let workspaceBase :=
    or_else (Project.workspace currentProject) (str "workspace/" ++ projectId) in
  agentCall projectId stepId workspaceBase (Project.description currentProject)
  = Some call →
  runAgent backend call = Resolved tt →
  (k < 30)%nat →
  (∀ j, (j < k)%nat → seen (polls w + j) ≠ SeesCompleted) →
  seen (polls w + k) = SeesCompleted →
  ∃ w' step,
    (∃ steps,
       getProject backend (polls w + k) projectId = Resolved steps
       ∧ find (λ s, bool_decide (ApiStep.id s = stepId)) steps = Some step)
    ∧ handleStepAction backend (Some currentProject) projectId stepId action w
      = (Normal tt, w')
    ∧ polls w' = (polls w + k + 1)%nat
    ∧ clock w' = clock w + 10000 * (Z.of_nat k + 1)
    ∧ requests w' = requests w ++ [call]
    ∧ stepStatuses (Project.id currentProject) stepId (store w')
      = map (λ _, StepStatus.completed)
            (stepStatuses (Project.id currentProject) stepId (store w))
    ∧ stepOutputs (Project.id currentProject) stepId (store w')
      = map (λ _, (Some (cleanOutputOf stepId step),
                   Some (filePathOf stepId workspaceBase step)))
            (stepOutputs (Project.id currentProject) stepId (store w))
    ∧ lastMessage (store w')
      = Some (stepId ++ str " phase completed successfully!")
    ∧ isRunning w' = false
    ∧ isProcessing (store w') = false.
Proof.
  intros workspaceBase Hcall Hrun Hk Hnone Hseen.
  unfold handleStepAction, runStep. fold workspaceBase.
  rewrite Hcall. destruct w as [st0 run0 con0 clock0 polls0 uuids0 requests0].
  step_eff. rewrite Hrun. step_eff.
  match goal with
  | |- context [waitLoop backend loopFuel currentProject projectId stepId
                         workspaceBase false 0 ?W] =>
      destruct (waitLoop_first_completed workspaceBase k loopFuel 0 W)
        as (wk & step & Hwait & Hget & ->);
        [lia|pose proof loopFuel_enough; lia|exact Hnone|exact Hseen|]
  end.
  destruct wk as [st1 run1 con1 clock1 polls1 uuids1 requests1].
  destruct Hwait as (Hst & Hrun1 & Huu & Hreq & Hpolls & Hclock).
  cbn [store isRunning uuidsDrawn requests polls clock] in *.
  subst st1 run1 uuids1 requests1 polls1 clock1.
  unfold completedWorld. step_eff.
  eexists _, step. split; [exact Hget|]. split; [reflexivity|].
  cbn [store polls clock isRunning requests].
  split; [lia|]. split; [lia|]. split; [done|].
  split; [|split; [|split; [|done]]].
  - observe_store.
    rewrite (stepStatuses_updateProjectStep _ _ _ StepStatus.completed) by done.
    observe_store.
    rewrite (stepStatuses_updateProjectStep _ _ _ StepStatus.in_progress) by done.
    observe_store. apply map_const_twice.
  - rewrite stepOutputs_setProcessing, stepOutputs_addMessage.
    rewrite stepOutputs_updateProjectStep by done.
    rewrite stepOutputs_addMessage, stepOutputs_updateProjectStep by done.
    rewrite stepOutputs_setProcessing. cbn [markCompleted markInProgress
      StepUpdates.output StepUpdates.filePath default].
    rewrite map_map. done.
  - by rewrite lastMessage_setProcessing, lastMessage_addMessage.
Qed.

(** When the request is accepted and poll number [k] (from 0, below 30) is
    the first that shows the step completed, [handleStepAction] returns after
    [k + 1] polls and as many timers, the steps of that name are [completed],
    the last chat message reports the success, and the running and processing
    flags are off. *)
Theorem handleStepAction_success
    (action : Action) (call : ApiCall) (k : nat) (w : World) :
  agentCall projectId stepId
    (or_else (Project.workspace currentProject) (str "workspace/" ++ projectId))
    (Project.description currentProject) = Some call →
  runAgent backend call = Resolved tt →
  (k < 30)%nat →
  (∀ j, (j < k)%nat → seen (polls w + j) ≠ SeesCompleted) →
  seen (polls w + k) = SeesCompleted →
  ∃ w',
    handleStepAction backend (Some currentProject) projectId stepId action w
    = (Normal tt, w')
    ∧ polls w' = (polls w + k + 1)%nat
    ∧ clock w' = clock w + 10000 * (Z.of_nat k + 1)
    ∧ stepStatuses (Project.id currentProject) stepId (store w')
      = map (λ _, StepStatus.completed)
            (stepStatuses (Project.id currentProject) stepId (store w))
    ∧ lastMessage (store w')
      = Some (stepId ++ str " phase completed successfully!")
    ∧ isRunning w' = false
    ∧ isProcessing (store w') = false.
Proof.
  intros Hcall Hrun Hk Hnone Hseen.
  destruct (handleStepAction_success_full action call k w Hcall Hrun Hk Hnone Hseen)
    as (w' & step & _ & Hret & Hpolls & Hclock & _ & Hst & _ & Hmsg & Hflags).
  exists w'. repeat (split; [assumption|]). exact Hflags.
Qed.

(** What a successful run stores for the step: the output of the answer after
    [cleanUnicodeText], or [<stepId> completed] when the answer has no output
    or an empty one; and the file path of the answer, or
    [<workspaceBase>/<stepId>.md] when it has none. *)
Theorem handleStepAction_stores_clean_output
    (action : Action) (call : ApiCall) (k : nat) (w : World) :
  let workspaceBase :=
    or_else (Project.workspace currentProject) (str "workspace/" ++ projectId) in
  agentCall projectId stepId workspaceBase (Project.description currentProject)
  = Some call →
  runAgent backend call = Resolved tt →
  (k < 30)%nat →
  (∀ j, (j < k)%nat → seen (polls w + j) ≠ SeesCompleted) →
  seen (polls w + k) = SeesCompleted →
  ∃ w' steps step,
    getProject backend (polls w + k) projectId = Resolved steps
    ∧ find (λ s, bool_decide (ApiStep.id s = stepId)) steps = Some step
    ∧ handleStepAction backend (Some currentProject) projectId stepId action w
      = (Normal tt, w')
    ∧ stepOutputs (Project.id currentProject) stepId (store w')
      = map (λ _,
               (Some (match ApiStep.output step with
                      | Some (c :: o) => cleanUnicodeText (c :: o)
                      | _ => stepId ++ str " completed"
                      end),
                Some (match ApiStep.file_path step with
                      | Some (c :: f) => c :: f
                      | _ => workspaceBase ++ str "/" ++ stepId ++ str ".md"
                      end)))
            (stepOutputs (Project.id currentProject) stepId (store w)).
Proof.
  intros workspaceBase Hcall Hrun Hk Hnone Hseen.
  destruct (handleStepAction_success_full action call k w Hcall Hrun Hk Hnone Hseen)
    as (w' & step & (steps & Hget & Hfind) & Hret & _ & _ & _ & _ & Hout & _).
  exists w', steps, step. repeat (split; [assumption|]).
  rewrite Hout. unfold cleanOutputOf, filePathOf, opt_or_else, or_else.
  fold workspaceBase.
  destruct (ApiStep.output step) as [[|c o]|], (ApiStep.file_path step) as [[|d f]|];
    reflexivity.
Qed.

End DriverOutcomes.

Lemma handleStepAction_success_witness :
  ∃ w',
    handleStepAction completingBackend (Some demoProject) (str "id-1")
                     (str "analysis") run demoWorld
    = (Normal tt, w')
    ∧ polls w' = 3%nat
    ∧ clock w' = 30000
    ∧ stepStatuses (str "id-1") (str "analysis") (store w')
      = [StepStatus.completed].
Proof.
  destruct (handleStepAction_success
              completingBackend demoProject (str "id-1") (str "analysis") run
              (runAnalysisAgent (str "id-1") (str "a demo")) 2 demoWorld)
    as (w' & Hret & Hpolls & Hclock & Hsteps & _).
  - vm_compute. reflexivity.
  - reflexivity.
  - lia.
  - intros [|[|j]] Hj; [vm_compute; discriminate..|lia].
  - vm_compute. reflexivity.
  - exists w'. repeat split; assumption.
Defined.

Lemma handleStepAction_stores_clean_output_witness :
  ∃ w',
    handleStepAction completingBackend (Some demoProject) (str "id-1")
                     (str "analysis") run demoWorld
    = (Normal tt, w')
    ∧ stepOutputs (str "id-1") (str "analysis") (store w')
      = [(Some (str "done "), Some (str "workspace/demo/analysis.md"))].
Proof.
  destruct (handleStepAction_stores_clean_output
              completingBackend demoProject (str "id-1") (str "analysis") run
              (runAnalysisAgent (str "id-1") (str "a demo")) 2 demoWorld)
    as (w' & steps & step & Hget & Hfind & Hret & Hout).
  - vm_compute. reflexivity.
  - reflexivity.
  - lia.
  - intros [|[|j]] Hj; [vm_compute; discriminate..|lia].
  - vm_compute. reflexivity.
  - exists w'. split; [exact Hret|]. etrans; [exact Hout|].
    vm_compute in Hget. injection Hget as <-.
    vm_compute in Hfind. injection Hfind as <-.
    vm_compute. reflexivity.
Defined.

Section DriverFailures.

Variable backend : Backend.
Variable currentProject : Project.t.
Variables projectId stepId : jsstring.

(** A step name the [switch] does not know: no request is sent and nothing
    is polled; the steps of that name (if the project has any) are marked
    [error], the chat reports [Unknown step], and the flags are off. *)
Theorem handleStepAction_unknown_step (action : Action) (w : World) :
  agentCall projectId stepId
    (or_else (Project.workspace currentProject) (str "workspace/" ++ projectId))
    (Project.description currentProject) = None →
  ∃ w',
    handleStepAction backend (Some currentProject) projectId stepId action w
    = (Normal tt, w')
    ∧ polls w' = polls w
    ∧ clock w' = clock w
    ∧ requests w' = requests w
    ∧ stepStatuses (Project.id currentProject) stepId (store w')
      = map (λ _, StepStatus.error)
            (stepStatuses (Project.id currentProject) stepId (store w))
    ∧ lastMessage (store w')
      = Some (str "Error in " ++ stepId ++ str " phase: "
              ++ cleanUnicodeText (str "Unknown step: " ++ stepId))
    ∧ isRunning w' = false
    ∧ isProcessing (store w') = false.
Proof.
  intros Hcall. unfold handleStepAction, runStep. rewrite Hcall.
  destruct w as [st0 run0 con0 clock0 polls0 uuids0 requests0].
  step_eff. eexists. split; [reflexivity|].
  cbn [store polls clock isRunning requests].
  repeat (split; [done|]). split; [|split; [|done]].
  - observe_store.
    rewrite (stepStatuses_updateProjectStep _ _ _ StepStatus.error) by done.
    observe_store.
    rewrite (stepStatuses_updateProjectStep _ _ _ StepStatus.in_progress) by done.
    observe_store. apply map_const_twice.
  - by rewrite lastMessage_setProcessing, lastMessage_addMessage.
Qed.

(** A request the back end refuses: the request is the only call made,
    nothing is polled and no time is waited; the steps of that name are marked
    [error] and the chat carries the reason of the refusal after
    [cleanUnicodeText]. *)
Theorem handleStepAction_request_rejected
    (action : Action) (call : ApiCall) (e : JsError) (w : World) :
  agentCall projectId stepId
    (or_else (Project.workspace currentProject) (str "workspace/" ++ projectId))
    (Project.description currentProject) = Some call →
  runAgent backend call = Rejected e →
  ∃ w',
    handleStepAction backend (Some currentProject) projectId stepId action w
    = (Normal tt, w')
    ∧ polls w' = polls w
    ∧ clock w' = clock w
    ∧ requests w' = requests w ++ [call]
    ∧ stepStatuses (Project.id currentProject) stepId (store w')
      = map (λ _, StepStatus.error)
            (stepStatuses (Project.id currentProject) stepId (store w))
    ∧ lastMessage (store w')
      = Some (str "Error in " ++ stepId ++ str " phase: "
              ++ cleanUnicodeText (message e))
    ∧ isRunning w' = false
    ∧ isProcessing (store w') = false.
Proof.
  intros Hcall Hrun. unfold handleStepAction, runStep. rewrite Hcall.
  destruct w as [st0 run0 con0 clock0 polls0 uuids0 requests0].
  step_eff. rewrite Hrun. step_eff. eexists. split; [reflexivity|].
  cbn [store polls clock isRunning requests].
  repeat (split; [done|]). split; [|split; [|done]].
  - observe_store.
    rewrite (stepStatuses_updateProjectStep _ _ _ StepStatus.error) by done.
    observe_store.
    rewrite (stepStatuses_updateProjectStep _ _ _ StepStatus.in_progress) by done.
    observe_store. apply map_const_twice.
  - by rewrite lastMessage_setProcessing, lastMessage_addMessage.
Qed.

End DriverFailures.

Lemma handleStepAction_unknown_step_witness :
  ∃ w',
    handleStepAction stuckBackend (Some demoProject) (str "id-1") (str "review")
                     run demoWorld
    = (Normal tt, w')
    ∧ polls w' = 0%nat
    ∧ requests w' = []
    ∧ lastMessage (store w')
      = Some (str "Error in review phase: Unknown step: review").
Proof.
  destruct (handleStepAction_unknown_step
              stuckBackend demoProject (str "id-1") (str "review") run demoWorld)
    as (w' & Hret & Hpolls & _ & Hreq & _ & Hmsg & _).
  - vm_compute. reflexivity.
  - exists w'. split; [exact Hret|]. split; [exact Hpolls|].
    split; [exact Hreq|]. etrans; [exact Hmsg|]. vm_compute. reflexivity.
Defined.

Lemma handleStepAction_request_rejected_witness :
  ∃ w',
    handleStepAction rejectingBackend (Some demoProject) (str "id-1")
                     (str "analysis") run demoWorld
    = (Normal tt, w')
    ∧ polls w' = 0%nat
    ∧ stepStatuses (str "id-1") (str "analysis") (store w') = [StepStatus.error]
    ∧ lastMessage (store w')
      = Some (str "Error in analysis phase: HTTP error! status: 500").
Proof.
  destruct (handleStepAction_request_rejected
              rejectingBackend demoProject (str "id-1") (str "analysis") run
              (runAnalysisAgent (str "id-1") (str "a demo"))
              (mkError (str "HTTP error! status: 500")) demoWorld)
    as (w' & Hret & Hpolls & _ & _ & Hsteps & Hmsg & _).
  - vm_compute. reflexivity.
  - reflexivity.
  - exists w'. split; [exact Hret|]. split; [exact Hpolls|].
    split; [exact Hsteps|]. etrans; [exact Hmsg|]. vm_compute. reflexivity.
Defined.

(** ** The API client *)

Section ApiClient.

Import Api.

Variable Data : Type.
Variables baseURL endpoint : jsstring.
Variable retries : Z.

Local Abbreviation onCaught := (Api.onCaught (Data:=Data) baseURL endpoint retries).
Local Abbreviation attemptOnce := (Api.attemptOnce (Data:=Data) baseURL endpoint retries).
Local Abbreviation attempts := (Api.attempts (Data:=Data) baseURL endpoint retries).
Local Abbreviation request := (Api.request (Data:=Data) baseURL endpoint retries).

(** The [catch] block goes round again only before the last attempt, after
    the back-off of that attempt, and with the error in [lastError]. *)
Lemma onCaught_again (a : Z) (e : Thrown) (ms : Z) (c : option Thrown) :
  onCaught a e = Again ms c → ms = backoff a ∧ a ≠ retries ∧ c = Some e.
Proof.
  unfold Api.onCaught.
  destruct (a =? retries) eqn:Ha; [apply Z.eqb_eq in Ha|apply Z.eqb_neq in Ha];
    repeat case_match; intros; simplify_eq; done.
Qed.

Lemma attemptOnce_again (a : Z) (o : FetchOutcome Data) (ms : Z)
    (c : option Thrown) :
  attemptOnce a o = Again ms c → ms = backoff a ∧ a ≠ retries.
Proof.
  unfold Api.attemptOnce, returned.
  destruct (a =? retries) eqn:Ha; [apply Z.eqb_eq in Ha|apply Z.eqb_neq in Ha];
    repeat case_match; intros; simplify_eq;
    try (edestruct onCaught_again as (? & ? & ?); [eassumption|done]);
    done.
Qed.

Variable fetch : nat → FetchOutcome Data.

Lemma attempts_run (fuel : nat) :
  ∀ (a : Z) (last : option Thrown) (calls : nat) (sleep : Z),
    0 ≤ a ≤ retries →
    Z.of_nat fuel = retries + 1 - a →
    Z.of_nat calls = a →
    sleep = 500 * a * (a + 1) →
    let o := attempts fetch fuel a last calls sleep in
    ((∃ data, result o = Returned data) ∨ (∃ e, result o = Threw e))
    ∧ a < Z.of_nat (fetches o) ≤ retries + 1
    ∧ slept o = 500 * (Z.of_nat (fetches o) - 1) * Z.of_nat (fetches o).
Proof.
  induction fuel as [|fuel IH]; intros a last calls sleep Ha Hfuel Hcalls Hsleep.
  - lia.
  - cbn [Api.attempts].
    destruct (Z.leb_spec a retries) as [_|?]; [|lia].
    destruct (attemptOnce a (fetch calls)) as [data|e|ms c] eqn:Hturn.
    + cbn. split; [left; eauto|]. split; [lia|].
      subst sleep. replace (Z.of_nat (S calls) - 1) with a by lia.
      replace (Z.of_nat (S calls)) with (a + 1) by lia. lia.
    + cbn. split; [right; eauto|]. split; [lia|].
      subst sleep. replace (Z.of_nat (S calls) - 1) with a by lia.
      replace (Z.of_nat (S calls)) with (a + 1) by lia. lia.
    + apply attemptOnce_again in Hturn as [-> Hlast].
      specialize (IH (a + 1) (match c with Some e => Some e | None => last end)
                     (S calls) (sleep + backoff a)).
      destruct IH as (Hres & Hn & Hs).
      * lia.
      * lia.
      * lia.
      * unfold backoff. subst sleep. lia.
      * split; [exact Hres|]. split; [lia|exact Hs].
Qed.

(** Turns that all go round again: [n] of them from [attempt] on cost [n]
    calls of [fetch] and the back-offs of these attempts. *)
Lemma attempts_skip (n : nat) :
  ∀ (fuel : nat) (a : Z) (last : option Thrown) (calls : nat) (sleep : Z),
    (∀ j, (j < n)%nat →
          ∃ ms c, attemptOnce (a + Z.of_nat j) (fetch (calls + j)) = Again ms c) →
    a + Z.of_nat n ≤ retries + 1 →
    ∃ last',
      attempts fetch (n + fuel) a last calls sleep
      = attempts fetch fuel (a + Z.of_nat n) last' (calls + n)
                 (sleep + 500 * Z.of_nat n * (2 * a + Z.of_nat n + 1)).
Proof.
  induction n as [|n IH]; intros fuel a last calls sleep Hturns Hle.
  - exists last. cbn [Nat.add]. f_equal; [lia|lia|lia].
  - destruct (Hturns 0%nat) as (ms & c & Hturn); [lia|].
    rewrite Z.add_0_r, Nat.add_0_r in Hturn.
    cbn [Nat.add Api.attempts].
    destruct (Z.leb_spec a retries) as [_|?]; [|lia].
    rewrite Hturn.
    apply attemptOnce_again in Hturn as [-> _].
    destruct (IH fuel (a + 1) (match c with Some e => Some e | None => last end)
                 (S calls) (sleep + backoff a)) as [last' Heq].
    + intros j Hj. destruct (Hturns (S j)) as (ms & c' & Hturn'); [lia|].
      exists ms, c'. rewrite <- Hturn'. f_equal; [lia|f_equal; lia].
    + lia.
    + exists last'. rewrite Heq. unfold backoff. f_equal; [lia|lia|lia].
Qed.

(** For [retries >= 0], [request] ends inside the loop, by [return] or
    by [throw]: the [throw] after the loop is never reached.  It calls [fetch]
    at least once and at most [retries + 1] times, and between [n] calls it
    has slept 1000 + 2000 + ... + (n-1)*1000 milliseconds, which is at most
    500 * retries * (retries + 1). *)
Theorem request_bounded :
  0 ≤ retries →
  let o := request fetch in
  ((∃ data, result o = Returned data) ∨ (∃ e, result o = Threw e))
  ∧ (1 ≤ fetches o)%nat
  ∧ Z.of_nat (fetches o) ≤ retries + 1
  ∧ slept o = 500 * (Z.of_nat (fetches o) - 1) * Z.of_nat (fetches o)
  ∧ slept o ≤ 500 * retries * (retries + 1).
Proof.
  intros Hr o.
  destruct (attempts_run (Z.to_nat (retries + 1)) 0 None 0 0)
    as (Hres & Hn & Hs); [lia|lia|lia|lia|].
  fold (request fetch) in Hres, Hn, Hs. fold o in Hres, Hn, Hs.
  split; [exact Hres|]. split; [lia|]. split; [lia|]. split; [exact Hs|].
  rewrite Hs. nia.
Qed.

(** A response with a status from 400 to 499 whose error message does
    not contain "timeout" is not retried: [request] throws the [ApiError]
    with that message, status and body after one call of [fetch], without
    sleeping. *)
Theorem request_client_error (r : HttpResponse Data) :
  0 ≤ retries →
  fetch 0%nat = FetchResponse r →
  400 ≤ status r < 500 →
  includes (str "timeout") (errorMessageOf r) = false →
  request fetch
  = mkOutcome
      (Threw (newApiError (errorMessageOf r) (status r) (errorDetailsOf r)))
      1 0.
Proof.
  intros Hr Hfetch Hstatus Hmsg.
  unfold Api.request.
  replace (Z.to_nat (retries + 1)) with (S (Z.to_nat retries)) by lia.
  cbn [Api.attempts].
  destruct (Z.leb_spec 0 retries) as [_|?]; [|lia].
  rewrite Hfetch. unfold Api.attemptOnce, ok.
  replace (200 <=? status r) with true by lia.
  replace (status r <=? 299) with false by lia.
  replace (400 <=? status r) with true by lia.
  replace (status r <? 500) with true by lia.
  cbn [andb negb]. unfold Api.onCaught.
  cbn [isTypeError isError isApiError newApiError class name message andb orb].
  rewrite Hmsg.
  replace (bool_decide (str "ApiError" = str "AbortError")) with false
    by (vm_compute; reflexivity).
  reflexivity.
Qed.

(** A response with a status from 400 to 499 is retried all the same
    when its error message contains "timeout": with [retries > 0],
    [request] sleeps and calls [fetch] again. *)
Theorem request_client_error_retried (r : HttpResponse Data) :
  0 < retries →
  fetch 0%nat = FetchResponse r →
  400 ≤ status r < 500 →
  includes (str "timeout") (errorMessageOf r) = true →
  (2 ≤ fetches (request fetch))%nat ∧ 1000 ≤ slept (request fetch).
Proof.
  intros Hr Hfetch Hstatus Hmsg.
  unfold Api.request.
  replace (Z.to_nat (retries + 1)) with (S (Z.to_nat retries)) by lia.
  cbn [Api.attempts].
  destruct (Z.leb_spec 0 retries) as [_|?]; [|lia].
  rewrite Hfetch. unfold Api.attemptOnce, ok.
  replace (200 <=? status r) with true by lia.
  replace (status r <=? 299) with false by lia.
  replace (400 <=? status r) with true by lia.
  replace (status r <? 500) with true by lia.
  cbn [andb negb]. unfold Api.onCaught.
  cbn [isTypeError isError isApiError newApiError class name message andb orb].
  rewrite Hmsg, orb_true_r.
  replace (0 =? retries) with false by lia.
  destruct (attempts_run (Z.to_nat retries) (0 + 1)
              (Some (newApiError (errorMessageOf r) (status r) (errorDetailsOf r)))
              1 (0 + backoff 0))
    as (_ & Hn & Hs); [lia|lia|lia|unfold backoff; lia|].
  split; [lia|]. rewrite Hs. nia.
Qed.

(** When the first [k <= retries] answers have a status of 500 or more
    and the next one is a 2xx answer with a JSON content type whose body
    parses to [data], [request] returns [data] after [k + 1] calls of
    [fetch], having slept 1000 + ... + k*1000 milliseconds. *)
Theorem request_recovers (k : nat) (r : HttpResponse Data) (ct : jsstring)
    (data : Data) :
  Z.of_nat k ≤ retries →
  (∀ j, (j < k)%nat → ∃ r', fetch j = FetchResponse r' ∧ 500 ≤ status r') →
  fetch k = FetchResponse r →
  200 ≤ status r ≤ 299 →
  contentType r = Some ct →
  includes (str "application/json") ct = true →
  json r = Fulfilled data →
  request fetch
  = mkOutcome (Returned data) (S k) (500 * Z.of_nat k * (Z.of_nat k + 1)).
Proof.
  intros Hk Hfail Hfetch Hstatus Hct Hjson Hdata.
  unfold Api.request.
  replace (Z.to_nat (retries + 1))
    with (k + S (Z.to_nat (retries - Z.of_nat k)))%nat by lia.
  destruct (attempts_skip k (S (Z.to_nat (retries - Z.of_nat k))) 0 None 0 0)
    as [last' ->].
  - intros j Hj. destruct (Hfail j Hj) as (r' & Hr' & Hs').
    exists (backoff (0 + Z.of_nat j)), None.
    cbn [Nat.add]. rewrite Hr'. unfold Api.attemptOnce, ok.
    replace (status r' <=? 299) with false by lia.
    replace (status r' <? 500) with false by lia.
    rewrite !andb_false_r. cbn [negb].
    replace (0 + Z.of_nat j =? retries) with false by lia.
    reflexivity.
  - lia.
  - cbn [Api.attempts Nat.add].
    destruct (Z.leb_spec (0 + Z.of_nat k) retries) as [_|?]; [|lia].
    rewrite Hfetch. unfold Api.attemptOnce, ok.
    replace (200 <=? status r) with true by lia.
    replace (status r <=? 299) with true by lia.
    cbn [andb negb]. rewrite Hct, Hjson, Hdata.
    assert (falsy ct = false) as ->.
    { destruct ct; [vm_compute in Hjson; discriminate|reflexivity]. }
    cbn [andb negb returned]. f_equal; lia.
Qed.

(** When every call of [fetch] rejects with a [TypeError] whose message
    contains "fetch", [request] gives up after [retries + 1] calls and
    1000 + ... + retries*1000 milliseconds of sleep, and throws the
    "Cannot connect to backend server" error that names the base URL. *)
Theorem request_unreachable :
  0 ≤ retries →
  (∀ n, ∃ e, fetch n = FetchRejects e ∧ isTypeError e = true
             ∧ includes (str "fetch") (message e) = true) →
  request fetch
  = mkOutcome
      (Threw (newError (str "Cannot connect to backend server at " ++ baseURL
                        ++ str ". Please ensure the backend is running on the correct port.")))
      (Z.to_nat (retries + 1)) (500 * retries * (retries + 1)).
Proof.
  intros Hr Hdown.
  unfold Api.request.
  replace (Z.to_nat (retries + 1)) with (Z.to_nat retries + 1)%nat at 1 by lia.
  destruct (attempts_skip (Z.to_nat retries) 1 0 None 0 0) as [last' ->].
  - intros j Hj. destruct (Hdown j) as (e & He & Hty & Hmsg).
    exists (backoff (0 + Z.of_nat j)), (Some e).
    cbn [Nat.add]. rewrite He. unfold Api.attemptOnce, Api.onCaught.
    rewrite Hty, Hmsg. cbn [andb orb].
    replace (0 + Z.of_nat j =? retries) with false by lia.
    reflexivity.
  - lia.
  - cbn [Api.attempts Nat.add].
    destruct (Z.leb_spec (0 + Z.of_nat (Z.to_nat retries)) retries) as [_|?];
      [|lia].
    destruct (Hdown (Z.to_nat retries)) as (e & He & Hty & Hmsg).
    rewrite He. unfold Api.attemptOnce, Api.onCaught.
    rewrite Hty, Hmsg. cbn [andb orb].
    rewrite Z2Nat.id by lia. rewrite Z.add_0_l, Z.eqb_refl.
    f_equal; lia.
Qed.

End ApiClient.

Lemma request_bounded_witness :
  let o := Api.request (str "http://127.0.0.1:8002") (str "/api/projects") 3
                       (Api.recovering 2 (str "[]")) in
  ((∃ data, Api.result o = Api.Returned data)
   ∨ (∃ e, Api.result o = Api.Threw e))
  ∧ (1 ≤ Api.fetches o)%nat
  ∧ Z.of_nat (Api.fetches o) ≤ 3 + 1
  ∧ Api.slept o = 500 * (Z.of_nat (Api.fetches o) - 1) * Z.of_nat (Api.fetches o)
  ∧ Api.slept o ≤ 500 * 3 * (3 + 1).
Proof.
  apply (request_bounded jsstring (str "http://127.0.0.1:8002")
           (str "/api/projects") 3 (Api.recovering 2 (str "[]"))).
  lia.
Defined.

Lemma request_client_error_witness :
  Api.request (str "http://127.0.0.1:8002") (str "/api/projects/p1") 3
              (Api.notFound (str "Project not found"))
  = Api.mkOutcome
      (Api.Threw (Api.newApiError (str "Project not found") 404
                    (Some (Api.OtherBody (Some (str "Project not found")) None))))
      1 0.
Proof.
  apply (request_client_error jsstring (str "http://127.0.0.1:8002")
           (str "/api/projects/p1") 3 (Api.notFound (str "Project not found"))
           (Api.mkResponse 404 (str "Not Found")
              (Api.OtherBody (Some (str "Project not found")) None)
              (Some (str "application/json")) (Api.Fulfilled [])
              (Api.Fulfilled []))).
  - lia.
  - reflexivity.
  - cbn. lia.
  - vm_compute. reflexivity.
Defined.

Lemma request_client_error_retried_witness :
  (2 ≤ Api.fetches
         (Api.request (str "http://127.0.0.1:8002") (str "/api/agents/analysis")
            3 (Api.notFound (str "Gateway timeout while reading"))))%nat
  ∧ 1000 ≤ Api.slept
             (Api.request (str "http://127.0.0.1:8002")
                (str "/api/agents/analysis") 3
                (Api.notFound (str "Gateway timeout while reading"))).
Proof.
  apply (request_client_error_retried jsstring (str "http://127.0.0.1:8002")
           (str "/api/agents/analysis") 3
           (Api.notFound (str "Gateway timeout while reading"))
           (Api.mkResponse 404 (str "Not Found")
              (Api.OtherBody (Some (str "Gateway timeout while reading")) None)
              (Some (str "application/json")) (Api.Fulfilled [])
              (Api.Fulfilled []))).
  - lia.
  - reflexivity.
  - cbn. lia.
  - vm_compute. reflexivity.
Defined.

Lemma request_recovers_witness :
  Api.request (str "http://127.0.0.1:8002") (str "/api/projects") 3
              (Api.recovering 2 (str "[]"))
  = Api.mkOutcome (Api.Returned (str "[]")) 3 3000.
Proof.
  apply (request_recovers jsstring (str "http://127.0.0.1:8002")
           (str "/api/projects") 3 (Api.recovering 2 (str "[]")) 2
           (Api.jsonAnswer (str "[]")) (str "application/json") (str "[]")).
  - lia.
  - intros j Hj. exists Api.serverError. split; [|cbn; lia].
    unfold Api.recovering. rewrite bool_decide_eq_true_2; [reflexivity|exact Hj].
  - reflexivity.
  - cbn. lia.
  - reflexivity.
  - vm_compute. reflexivity.
  - reflexivity.
Defined.

Lemma request_unreachable_witness :
  Api.request (str "http://127.0.0.1:8002") (str "/api/projects") 3
              Api.unreachable
  = Api.mkOutcome
      (Api.Threw (Api.newError
         (str "Cannot connect to backend server at http://127.0.0.1:8002. Please ensure the backend is running on the correct port.")))
      4 6000.
Proof.
  etrans.
  - apply (request_unreachable jsstring (str "http://127.0.0.1:8002")
             (str "/api/projects") 3 Api.unreachable).
    + lia.
    + intros n. eexists. split; [reflexivity|]. split; [reflexivity|].
      vm_compute. reflexivity.
  - vm_compute. reflexivity.
Defined.

(** ** What a run of a step leaves alone *)

Section DriverFrame.

Variable backend : Backend.

Local Abbreviation keeps m :=
  (∀ w : World, projectHeaders (store (m w).2) = projectHeaders (store w)).

Lemma keeps_ret {A : Type} (a : A) : keeps (mret a : Eff A).
Proof. reflexivity. Qed.

Lemma keeps_throw {A : Type} (e : JsError) : keeps (throw e : Eff A).
Proof. reflexivity. Qed.

Lemma keeps_outOfFuel {A : Type} : keeps (outOfFuel : Eff A).
Proof. reflexivity. Qed.

Lemma keeps_bind {A B : Type} (m : Eff A) (f : A → Eff B) :
  keeps m → (∀ a, keeps (f a)) → keeps (m ≫= f).
Proof.
  intros Hm Hf w. unfold mbind, eff_bind. specialize (Hm w).
  destruct (m w) as [[a|e|] w1]; cbn [snd] in *; [|done..].
  by rewrite Hf.
Qed.

Lemma keeps_try_catch {A : Type} (body : Eff A) (handler : JsError → Eff A) :
  keeps body → (∀ e, keeps (handler e)) → keeps (try_catch body handler).
Proof.
  intros Hm Hf w. unfold try_catch. specialize (Hm w).
  destruct (body w) as [[a|e|] w1]; cbn [snd] in *; [done| |done].
  by rewrite Hf.
Qed.

Lemma keeps_try_finally {A : Type} (body : Eff A) (final : Eff unit) :
  keeps body → keeps final → keeps (try_finally body final).
Proof.
  intros Hm Hf w. unfold try_finally. specialize (Hm w).
  destruct (body w) as [[a|e|] w1]; cbn [snd] in *; [| |done].
  - specialize (Hf w1). destruct (final w1) as [[[]|e'|] w2]; cbn [snd] in *;
      by rewrite Hf.
  - specialize (Hf w1). destruct (final w1) as [[[]|e'|] w2]; cbn [snd] in *;
      by rewrite Hf.
Qed.

Lemma keeps_settle {A : Type} (r : Response A) : keeps (settle r).
Proof. by destruct r. Qed.

Lemma keeps_dispatch (action : AppState → AppState) :
  (∀ st, projectHeaders (action st) = projectHeaders st) →
  keeps (dispatch action).
Proof. intros Haction w. cbn. apply Haction. Qed.

(** [updateProjectStep] with updates that carry no [id] keeps the headers. *)
Lemma headers_updateSteps (stepId : jsstring) (updates : StepUpdates.t)
    (t : Date) (steps : list ProjectStep.t) :
  StepUpdates.id updates = None →
  map ProjectStep.id (updateSteps stepId updates t steps)
  = map ProjectStep.id steps.
Proof.
  intros Hid. unfold updateSteps. induction steps as [|s steps IH]; [done|].
  cbn [map]. rewrite IH. f_equal.
  destruct (stepHasId stepId s); [|done].
  unfold mergeStep. cbn. by rewrite Hid.
Qed.

Lemma header_withUpdatedStep (stepId : jsstring) (updates : StepUpdates.t)
    (t : Date) (p : Project.t) :
  StepUpdates.id updates = None →
  projectHeader (withUpdatedStep stepId updates t p) = projectHeader p.
Proof.
  intros Hid. unfold projectHeader, withUpdatedStep. cbn.
  by rewrite headers_updateSteps.
Qed.

Lemma headers_updateProjectStep (id stepId : jsstring)
    (updates : StepUpdates.t) (t : Date) (st : AppState) :
  StepUpdates.id updates = None →
  projectHeaders (Store.updateProjectStep id stepId updates t st)
  = projectHeaders st.
Proof.
  intros Hid. unfold projectHeaders, Store.updateProjectStep. cbn. f_equal.
  - induction (projects st) as [|p l IH]; [done|].
    cbn [map]. rewrite IH. f_equal.
    destruct (hasId id p); [|done]. by apply header_withUpdatedStep.
  - destruct (Store.currentProject st) as [p|]; [|done]. cbn.
    destruct (hasId id p); [|done]. cbn. f_equal.
    by apply header_withUpdatedStep.
Qed.

Lemma keeps_updateProjectStep (id stepId : jsstring) (updates : StepUpdates.t) :
  StepUpdates.id updates = None →
  keeps (Page.updateProjectStep id stepId updates).
Proof.
  intros Hid. unfold Page.updateProjectStep.
  apply keeps_bind; [done|]. intros t. apply keeps_dispatch. intros st.
  by apply headers_updateProjectStep.
Qed.

Lemma keeps_addMessage (type : MessageType.t) (content : jsstring)
    (metadata : option (list (jsstring * jsstring))) :
  keeps (Page.addMessage backend type content metadata).
Proof.
  unfold Page.addMessage.
  apply keeps_bind; [done|]. intros u.
  apply keeps_bind; [done|]. intros t.
  by apply keeps_dispatch.
Qed.

Lemma keeps_pollBody (currentProject : Project.t)
    (projectId stepId workspaceBase : jsstring) (completed : bool) :
  keeps (pollBody backend currentProject projectId stepId workspaceBase completed).
Proof.
  unfold pollBody. apply keeps_bind.
  - intros w. unfold awaitGetProject.
    by destruct (getProject backend (polls w) projectId).
  - intros steps.
    destruct (find _ steps) as [step|]; [|apply keeps_ret].
    destruct (bool_decide (ApiStep.status step = str "completed")).
    + apply keeps_bind; [by apply keeps_updateProjectStep|]. intros _.
      apply keeps_bind; [apply keeps_addMessage|]. intros _.
      apply keeps_ret.
    + destruct (bool_decide (ApiStep.status step = str "error"));
        [apply keeps_throw|apply keeps_ret].
Qed.

Lemma keeps_pollOnce (currentProject : Project.t)
    (projectId stepId workspaceBase : jsstring) (completed : bool) :
  keeps (pollOnce backend currentProject projectId stepId workspaceBase completed).
Proof.
  unfold pollOnce. apply keeps_bind; [done|]. intros _.
  apply keeps_try_catch; [apply keeps_pollBody|]. intros e.
  apply keeps_bind; [done|]. intros _. apply keeps_ret.
Qed.

Lemma waitLoop_eq (fuel : nat) (currentProject : Project.t)
    (projectId stepId workspaceBase : jsstring) (completed : bool)
    (attempts : Z) :
  waitLoop backend fuel currentProject projectId stepId workspaceBase
           completed attempts
  = if negb completed && (attempts <? 30) then
      match fuel with
      | O => outOfFuel
      | S fuel' =>
          pollOnce backend currentProject projectId stepId workspaceBase completed
          ≫= λ completed',
            waitLoop backend fuel' currentProject projectId stepId
                     workspaceBase completed' (attempts + 1)
      end
    else mret completed.
Proof. by destruct fuel. Qed.

Lemma keeps_waitLoop (currentProject : Project.t)
    (projectId stepId workspaceBase : jsstring) (fuel : nat) :
  ∀ (completed : bool) (attempts : Z),
    keeps (waitLoop backend fuel currentProject projectId stepId workspaceBase
                    completed attempts).
Proof.
  induction fuel as [|fuel IH]; intros completed attempts;
    rewrite waitLoop_eq; destruct (negb completed && (attempts <? 30));
    try apply keeps_ret.
  - apply keeps_outOfFuel.
  - apply keeps_bind; [apply keeps_pollOnce|]. intros completed'. apply IH.
Qed.

Lemma keeps_runStep (currentProject : Project.t) (projectId stepId : jsstring) :
  keeps (runStep backend currentProject projectId stepId).
Proof.
  unfold runStep.
  apply keeps_bind; [by apply keeps_updateProjectStep|]. intros _.
  apply keeps_bind; [apply keeps_addMessage|]. intros _.
  cbv zeta. destruct (agentCall _ _ _ _) as [call|]; [|apply keeps_throw].
  apply keeps_bind.
  { unfold awaitRunAgent. apply keeps_bind; [done|]. intros _.
    apply keeps_settle. }
  intros _. apply keeps_bind; [apply keeps_waitLoop|]. intros completed.
  destruct (negb completed); [apply keeps_throw|apply keeps_ret].
Qed.

Lemma keeps_onStepError (currentProject : Project.t) (stepId : jsstring)
    (error : JsError) :
  keeps (onStepError backend currentProject stepId error).
Proof.
  unfold onStepError.
  apply keeps_bind; [by apply keeps_updateProjectStep|]. intros _.
  apply keeps_addMessage.
Qed.

(** Whatever the back end answers, [handleStepAction] leaves every
    project of the store, and [currentProject], with the identifier, name,
    description, status, workspace, creation date and archive date it had,
    and with steps of the same identifiers in the same order: it adds and
    removes no project and no step, and it never changes the status of a
    project. *)
Theorem handleStepAction_keeps_headers (current : option Project.t)
    (projectId stepId : jsstring) (action : Action) (w : World) :
  projectHeaders
    (store (handleStepAction backend current projectId stepId action w).2)
  = projectHeaders (store w).
Proof.
  revert w. unfold handleStepAction.
  destruct current as [currentProject|]; [|apply keeps_ret].
  apply keeps_bind; [done|]. intros _.
  apply keeps_bind; [by apply keeps_dispatch|]. intros _.
  apply keeps_try_finally.
  - apply keeps_try_catch; [apply keeps_runStep|apply keeps_onStepError].
  - apply keeps_bind; [done|]. intros _. by apply keeps_dispatch.
Qed.

End DriverFrame.

(** ** The steps a project starts with and the requests of the driver *)

(** The driver has a request for a step exactly when the step is one
    of the four that [createProject] gives a project: for every other step
    identifier the [switch] of [handleStepAction] falls to its [default]. *)
Theorem agentCall_for_initial_steps
    (projectId stepId workspaceBase description : jsstring) (now : Date) :
  is_Some (agentCall projectId stepId workspaceBase description)
  ↔ stepId ∈ map ProjectStep.id (initialSteps now).
Proof.
  unfold agentCall, initialSteps. cbn [map freshStep ProjectStep.id].
  rewrite !elem_of_cons, elem_of_nil.
  repeat case_bool_decide; split; intros Hin; eauto; try tauto.
  by destruct Hin as [? [=]].
Qed.

(** ** The dashboard *)

Section DashboardFacts.

Import Dashboard.

Local Abbreviation newerFirst :=
  (λ a b : Project.t, Project.updatedAt b ≤ Project.updatedAt a).

Lemma insertBy_Permutation (x : Project.t) (l : list Project.t) :
  insertBy byUpdatedAtDesc x l ≡ₚ x :: l.
Proof.
  induction l as [|y l IH]; [done|]. cbn [insertBy].
  destruct (byUpdatedAtDesc x y <=? 0); [done|].
  rewrite IH. apply Permutation_swap.
Qed.

Lemma sortBy_Permutation (l : list Project.t) :
  sortBy byUpdatedAtDesc l ≡ₚ l.
Proof.
  induction l as [|x l IH]; [done|]. cbn [sortBy].
  by rewrite insertBy_Permutation, IH.
Qed.

Lemma insertBy_sorted (x : Project.t) (l : list Project.t) :
  StronglySorted newerFirst l →
  StronglySorted newerFirst (insertBy byUpdatedAtDesc x l).
Proof.
  induction 1 as [|y l Hl IH Hy]; cbn [insertBy].
  - repeat constructor.
  - unfold byUpdatedAtDesc at 1.
    destruct (Z.leb_spec (Project.updatedAt y - Project.updatedAt x) 0) as [Hle|Hgt].
    + constructor; [by constructor|].
      constructor; [lia|].
      eapply Forall_impl; [exact Hy|]. cbn. intros z Hz. lia.
    + constructor; [exact IH|].
      rewrite insertBy_Permutation. constructor; [lia|exact Hy].
Qed.

Lemma sortBy_sorted (l : list Project.t) :
  StronglySorted newerFirst (sortBy byUpdatedAtDesc l).
Proof.
  induction l as [|x l IH]; cbn [sortBy]; [constructor|].
  by apply insertBy_sorted.
Qed.

Lemma sorted_take_drop (n : nat) (l : list Project.t) :
  StronglySorted newerFirst l →
  ∀ p q, p ∈ take n l → q ∈ drop n l →
         Project.updatedAt q ≤ Project.updatedAt p.
Proof.
  intros Hl. revert n. induction Hl as [|x l Hl IH Hx]; intros n p q Hp Hq.
  - rewrite take_nil in Hp. by apply elem_of_nil in Hp.
  - destruct n as [|n]; [by apply elem_of_nil in Hp|].
    cbn [take drop] in Hp, Hq. apply elem_of_cons in Hp as [->|Hp].
    + rewrite Forall_forall in Hx. apply Hx.
      by eapply (subseteq_drop n l).
    + by eapply IH.
Qed.

Lemma elem_of_recentProjects (projects : list Project.t) (p : Project.t) :
  p ∈ recentProjects projects → p ∈ projects ∧ notArchived p = true.
Proof.
  unfold recentProjects. intros Hp.
  apply (subseteq_take 6) in Hp. rewrite sortBy_Permutation in Hp.
  by apply elem_of_bool_filter in Hp.
Qed.

(** The dashboard's [recentProjects] are at most six projects, none of
    them archived, the most recently updated first; together with the
    projects that are left out they are the projects that are not archived,
    and no project that is left out was updated later than one that is
    shown. *)
Theorem recentProjects_most_recent (projects : list Project.t) :
  (length (recentProjects projects) ≤ 6)%nat
  ∧ (∀ p, p ∈ recentProjects projects
          → p ∈ projects ∧ Project.status p ≠ ProjectStatus.archived)
  ∧ StronglySorted newerFirst (recentProjects projects)
  ∧ ∃ rest,
      recentProjects projects ++ rest ≡ₚ List.filter notArchived projects
      ∧ ∀ p q, p ∈ recentProjects projects → q ∈ rest
               → Project.updatedAt q ≤ Project.updatedAt p.
Proof.
  split; [|split; [|split]].
  - unfold recentProjects. rewrite length_take. lia.
  - intros p Hp. apply elem_of_recentProjects in Hp as [Hin Hna].
    split; [exact Hin|]. unfold notArchived in Hna.
    apply negb_true_iff, bool_decide_eq_false in Hna. exact Hna.
  - unfold recentProjects.
    apply (StronglySorted_app_1_l _ _
             (drop 6 (sortBy byUpdatedAtDesc (List.filter notArchived projects)))).
    rewrite take_drop. apply sortBy_sorted.
  - exists (drop 6 (sortBy byUpdatedAtDesc (List.filter notArchived projects))).
    split.
    + unfold recentProjects. by rewrite take_drop, sortBy_Permutation.
    + intros p q. apply sorted_take_drop, sortBy_sorted.
Qed.

(** [handleArchive] of the dashboard marks every project that has the
    identifier of the given one as archived, whatever the state of its
    steps, and none of them is among the [recentProjects] afterwards; it
    leaves the identifier, the steps and [archivedAt] of every project as
    they were, so that a project archived this way has no archive date
    unless it had one before. *)
Theorem handleArchive_archives (project : Project.t) (now : Date)
    (st : AppState) :
  let st' := handleArchive project now st in
  (∀ p, p ∈ projects st' → Project.id p = Project.id project
        → Project.status p = ProjectStatus.archived)
  ∧ (∀ p, p ∈ recentProjects (projects st')
          → Project.id p ≠ Project.id project)
  ∧ map (λ p, (Project.id p, Project.steps p, Project.archivedAt p))
        (projects st')
    = map (λ p, (Project.id p, Project.steps p, Project.archivedAt p))
          (projects st).
Proof.
  intros st'.
  assert (∀ p, p ∈ projects st' → Project.id p = Project.id project
               → Project.status p = ProjectStatus.archived) as Harchived.
  { intros p Hp Hid. unfold st', handleArchive, updateProject in Hp.
    cbn in Hp. apply elem_of_map in Hp as (p0 & -> & _).
    destruct (hasId (Project.id project) p0) eqn:Hp0; [done|].
    unfold hasId in Hp0. apply bool_decide_eq_false in Hp0. done. }
  split; [exact Harchived|]. split.
  - intros p Hp Hid. apply elem_of_recentProjects in Hp as [Hin Hna].
    unfold notArchived in Hna. apply negb_true_iff, bool_decide_eq_false in Hna.
    by apply Hna, Harchived.
  - unfold st', handleArchive, updateProject. cbn.
    induction (projects st) as [|p l IH]; [done|].
    cbn [map]. rewrite IH. f_equal.
    by destruct (hasId (Project.id project) p).
Qed.

End DashboardFacts.
